(** * gotank: the IndexTank client's query builder, batch result
      correlator and status interpretation, embedded from the Go sources.

    The Go code is modelled as it is written: the [int]s of the API are
    [Z], Go maps are [gmap]s (a map that can be nil is an [option] of
    one), slices are lists, a function that can panic returns in the
    [go] monad below, and a function that returns [(value, error)]
    returns the pair, each side [None] when it is nil.  What the code
    leaves to its environment is an argument of the model: the answer of
    the HTTP transport to the request a call sends, the order in which a
    [range] over a map visits its entries, and the library calls of
    [strconv], [fmt] and [encoding/json]. *)

From Stdlib Require Import Ascii SpecFloat.
From stdpp Require Import base numbers option list gmap strings pretty fin_maps.

Open Scope string_scope.
Open Scope list_scope.
Open Scope Z_scope.

(** ** The Go runtime as far as the sources rely on it *)

(** What makes a goroutine panic in these sources. *)
Inductive panic : Type :=
| PanicMsg (msg : string)   (* panic("...") *)
| IndexOutOfRange           (* s[i] with i outside 0 <= i < len(s) *)
| SliceOutOfRange           (* s[i:j] with bounds outside 0 <= i <= j <= len(s) *)
| NilDereference            (* a field of a nil pointer *)
| NilMapAssignment          (* m[k] = v on a nil map *)
| TypeAssertion.            (* i.(T) on a value that is no T *)

(** A Go computation: it returns, or it panics. *)
Inductive go (A : Type) : Type :=
| Ret (a : A)
| Panic (p : panic).
Arguments Ret {A} a.
Arguments Panic {A} p.

Global Instance go_ret : MRet go := fun A a => Ret a.
Global Instance go_bind : MBind go := fun A B k m =>
  match m with
  | Ret a => k a
  | Panic p => Panic p
  end.

(** [s[i]] for an [int] position. *)
Definition index {A : Type} (s : list A) (i : Z) : go A :=
  if decide (0 <= i) then
    match s !! Z.to_nat i with
    | Some x => Ret x
    | None => Panic IndexOutOfRange
    end
  else Panic IndexOutOfRange.

(** [s[i] = x] for an [int] position. *)
Definition assign {A : Type} (s : list A) (i : Z) (x : A) : go (list A) :=
  if decide (0 <= i < Z.of_nat (length s)) then Ret (<[Z.to_nat i := x]> s)
  else Panic IndexOutOfRange.

(** [v, ok := m[k]]: the zero value and [false] for a missing key. *)
Definition comma_ok {K : Type} `{Countable K} (m : gmap K string) (k : K)
  : string * bool :=
  match m !! k with
  | Some v => (v, true)
  | None => ("", false)
  end.

(** [strconv.Itoa]: the decimal form, with a leading minus sign. *)
Definition Itoa (i : Z) : string := pretty i.

(** A [float32]/[float64] value, as its IEEE 754 content. *)
Definition float32 : Type := spec_float.
Definition float64 : Type := spec_float.

(** The [float64]s 1 and 2. *)
Definition float_one : float64 := S754_finite false 4503599627370496 (-52).
Definition float_two : float64 := S754_finite false 4503599627370496 (-51).

(** ** Batch results (the correlator of batch add and batch delete) *)

Record Document : Type := mkDocument {
  Id : string;
  Fields : gmap string string;
  Variables : gmap string float32;
  Categories : gmap string string
}.

Record addResult : Type := mkAddResult {
  Added : bool;
  add_Error : string
}.

Record deleteResult : Type := mkDeleteResult {
  Deleted : bool;
  delete_Error : string
}.

Record addResults : Type := mkAddResults {
  add_hasErrors : bool;
  add_results : list bool;
  add_errors : gmap Z string;
  add_elements : list Document;
  add_failed : list Document
}.

Record deleteResults : Type := mkDeleteResults {
  del_hasErrors : bool;
  del_results : list bool;
  del_errors : gmap Z string;
  del_elements : list string;
  del_failed : list string
}.

(** The locals a correlator's loop updates: [errorFlag], [results],
    [errors] and [failed]. *)
Record tally (E : Type) : Type := mkTally {
  errorFlag : bool;
  results : list bool;
  errors : gmap Z string;
  failed : list E
}.
Arguments mkTally {E} _ _ _ _.
Arguments errorFlag {E} _.
Arguments results {E} _.
Arguments errors {E} _.
Arguments failed {E} _.

(** [for i, v := range r { ... }] of newBulkResults, from position [i]. *)
Fixpoint newBulkResults_loop (documentIds : list string) (i : Z)
    (r : list deleteResult) (t : tally string) : go (tally string) :=
  match r with
  | [] => Ret t
  | v :: r' =>
      results' ← assign (results t) i (Deleted v);
      t' ← (if negb (Deleted v) then
              docid ← index documentIds i;
              Ret (mkTally true results'
                     (<[i := delete_Error v]> (errors t))
                     (failed t ++ [docid]))
            else Ret (mkTally (errorFlag t) results' (errors t) (failed t)));
      newBulkResults_loop documentIds (i + 1) r' t'
  end.

Definition newBulkResults (documentIds : list string) (r : list deleteResult)
  : go deleteResults :=
  if decide (length documentIds <> length r) then
    Panic (PanicMsg
      "Something is wrong, len(documentIds) != len(r) in newBulkResults")
  else
    let n := length documentIds in
    t ← newBulkResults_loop documentIds 0 r
            (mkTally false (replicate n false) ∅ []);
    Ret (mkDeleteResults (errorFlag t) (results t) (errors t)
           documentIds (failed t)).

Definition del_HasErrors (r : deleteResults) : bool := del_hasErrors r.
Definition del_GetResult (r : deleteResults) (i : Z) : go bool :=
  index (del_results r) i.
Definition GetDocid (r : deleteResults) (i : Z) : go string :=
  index (del_elements r) i.
Definition del_GetErrorMessage (r : deleteResults) (i : Z) : string * bool :=
  comma_ok (del_errors r) i.
Definition GetFailedDocids (r : deleteResults) : list string := del_failed r.

(** [for i, v := range r { ... }] of newBatchResults, from position [i]. *)
Fixpoint newBatchResults_loop (documents : list Document) (i : Z)
    (r : list addResult) (t : tally Document) : go (tally Document) :=
  match r with
  | [] => Ret t
  | v :: r' =>
      doc ← index documents i;
      results' ← assign (results t) i (Added v);
      let t' := if negb (Added v) then
                  mkTally true results'
                    (<[i := add_Error v]> (errors t)) (failed t ++ [doc])
                else mkTally (errorFlag t) results' (errors t) (failed t) in
      newBatchResults_loop documents (i + 1) r' t'
  end.

Definition newBatchResults (documents : list Document) (r : list addResult)
  : go addResults :=
  if decide (length documents <> length r) then
    Panic (PanicMsg
      "Something is wrong, len(documents) != len(r) in newBatchResults")
  else
    let n := length documents in
    t ← newBatchResults_loop documents 0 r
            (mkTally false (replicate n false) ∅ []);
    Ret (mkAddResults (errorFlag t) (results t) (errors t)
           documents (failed t)).

Definition add_HasErrors (r : addResults) : bool := add_hasErrors r.
Definition add_GetResult (r : addResults) (i : Z) : go bool :=
  index (add_results r) i.
Definition GetDocument (r : addResults) (i : Z) : go Document :=
  index (add_elements r) i.
Definition add_GetErrorMessage (r : addResults) (i : Z) : string * bool :=
  comma_ok (add_errors r) i.
Definition GetFailedDocuments (r : addResults) : list Document := add_failed r.

(** The tally either loop leaves, written once for both: [elements]
    are the inputs from position [n] on, [outcomes] their outcome
    records, [ok] and [msg] the success flag and the error text of a
    record.  The loops are shown to compute it below. *)
Section Correlate.
Context {E O : Type} (ok : O -> bool) (msg : O -> string).

Fixpoint correlate (elements : list E) (outcomes : list O)
    (n : nat) (t : tally E) : tally E :=
  match elements, outcomes with
  | e :: elements', o :: outcomes' =>
      correlate elements' outcomes' (S n)
        (if ok o then
           mkTally (errorFlag t) (<[n := ok o]> (results t))
             (errors t) (failed t)
         else
           mkTally true (<[n := ok o]> (results t))
             (<[Z.of_nat n := msg o]> (errors t)) (failed t ++ [e]))
  | _, _ => t
  end.
End Correlate.

(** ** net/url and strings, as far as the sources rely on them *)

Definition upperhex (n : N) : ascii :=
  match n with
  | 0 => "0" | 1 => "1" | 2 => "2" | 3 => "3" | 4 => "4" | 5 => "5"
  | 6 => "6" | 7 => "7" | 8 => "8" | 9 => "9" | 10 => "A" | 11 => "B"
  | 12 => "C" | 13 => "D" | 14 => "E" | _ => "F"
  end%N%char.

(** [shouldEscape(c, encodeQueryComponent)]: letters, digits and the
    marks [-], [_], [.] and [~] stay, every other byte is escaped. *)
Definition shouldEscape (c : ascii) : bool :=
  let n := N_of_ascii c in
  negb (((97 <=? n) && (n <=? 122)) || ((65 <=? n) && (n <=? 90))
        || ((48 <=? n) && (n <=? 57))
        || (n =? 45) || (n =? 95) || (n =? 46) || (n =? 126))%N.

(** [url.QueryEscape]: a space becomes [+], an escaped byte becomes [%XX]. *)
Fixpoint QueryEscape (s : string) : string :=
  match s with
  | EmptyString => EmptyString
  | String c s' =>
      if Ascii.eqb c " " then String "+" (QueryEscape s')
      else if shouldEscape c then
        String "%" (String (upperhex (N_of_ascii c / 16))
                     (String (upperhex (N_of_ascii c mod 16)) (QueryEscape s')))
      else String c (QueryEscape s')
  end.

(** [strings.Join]. *)
Definition Join (elems : list string) (sep : string) : string :=
  String.concat sep elems.

(** [s[0:len(s)-1]]. *)
Fixpoint drop_last (s : string) : string :=
  match s with
  | EmptyString => EmptyString
  | String c EmptyString => EmptyString
  | String c s' => String c (drop_last s')
  end.

(** ** The query builder (query.go) *)

Record varRange : Type := mkVarRange {
  vr_id : Z;
  vr_floor : float64;
  vr_ceil : float64
}.

(** [queryVariables] is the one map a setter can replace by the
    caller's, which may be nil ([None]); [categoryFilters] is made by
    QueryForString and only ever updated in place.  A nil slice and an
    empty one are the same list: the code tests [len] only. *)
Record queryState : Type := mkQueryState {
  queryString : string;
  start : Z;
  length' : Z;
  scoringFunction : Z;
  fetchFields : list string;
  snippetFields : list string;
  queryVariables : option (gmap Z float64);
  fetchCategories : bool;
  fetchVariables : bool;
  docvarFilters : list varRange;
  functionFilters : list varRange;
  categoryFilters : gmap string (list string)
}.

Definition QueryForString (s : string) : queryState :=
  {| queryString := s; start := 0; length' := 10; scoringFunction := 0;
     fetchFields := []; snippetFields := [];
     queryVariables := Some ∅;
     fetchCategories := false; fetchVariables := false;
     docvarFilters := []; functionFilters := [];
     categoryFilters := ∅ |}.

Definition Start (start0 : Z) (q : queryState) : queryState :=
  {| queryString := queryString q; start := start0; length' := length' q;
     scoringFunction := scoringFunction q; fetchFields := fetchFields q;
     snippetFields := snippetFields q; queryVariables := queryVariables q;
     fetchCategories := fetchCategories q; fetchVariables := fetchVariables q;
     docvarFilters := docvarFilters q; functionFilters := functionFilters q;
     categoryFilters := categoryFilters q |}.

Definition NumResults (length0 : Z) (q : queryState) : queryState :=
  {| queryString := queryString q; start := start q; length' := length0;
     scoringFunction := scoringFunction q; fetchFields := fetchFields q;
     snippetFields := snippetFields q; queryVariables := queryVariables q;
     fetchCategories := fetchCategories q; fetchVariables := fetchVariables q;
     docvarFilters := docvarFilters q; functionFilters := functionFilters q;
     categoryFilters := categoryFilters q |}.

Definition FetchFields (fields : list string) (q : queryState) : queryState :=
  {| queryString := queryString q; start := start q; length' := length' q;
     scoringFunction := scoringFunction q; fetchFields := fields;
     snippetFields := snippetFields q; queryVariables := queryVariables q;
     fetchCategories := fetchCategories q; fetchVariables := fetchVariables q;
     docvarFilters := docvarFilters q; functionFilters := functionFilters q;
     categoryFilters := categoryFilters q |}.

Definition SnippetFields (fields : list string) (q : queryState) : queryState :=
  {| queryString := queryString q; start := start q; length' := length' q;
     scoringFunction := scoringFunction q; fetchFields := fetchFields q;
     snippetFields := fields; queryVariables := queryVariables q;
     fetchCategories := fetchCategories q; fetchVariables := fetchVariables q;
     docvarFilters := docvarFilters q; functionFilters := functionFilters q;
     categoryFilters := categoryFilters q |}.

Definition FetchVariables (q : queryState) : queryState :=
  {| queryString := queryString q; start := start q; length' := length' q;
     scoringFunction := scoringFunction q; fetchFields := fetchFields q;
     snippetFields := snippetFields q; queryVariables := queryVariables q;
     fetchCategories := fetchCategories q; fetchVariables := true;
     docvarFilters := docvarFilters q; functionFilters := functionFilters q;
     categoryFilters := categoryFilters q |}.

Definition FetchCategories (q : queryState) : queryState :=
  {| queryString := queryString q; start := start q; length' := length' q;
     scoringFunction := scoringFunction q; fetchFields := fetchFields q;
     snippetFields := snippetFields q; queryVariables := queryVariables q;
     fetchCategories := true; fetchVariables := fetchVariables q;
     docvarFilters := docvarFilters q; functionFilters := functionFilters q;
     categoryFilters := categoryFilters q |}.

Definition ScoringFunction (function : Z) (q : queryState) : queryState :=
  {| queryString := queryString q; start := start q; length' := length' q;
     scoringFunction := function; fetchFields := fetchFields q;
     snippetFields := snippetFields q; queryVariables := queryVariables q;
     fetchCategories := fetchCategories q; fetchVariables := fetchVariables q;
     docvarFilters := docvarFilters q; functionFilters := functionFilters q;
     categoryFilters := categoryFilters q |}.

Definition set_queryVariables (m : option (gmap Z float64)) (q : queryState)
  : queryState :=
  {| queryString := queryString q; start := start q; length' := length' q;
     scoringFunction := scoringFunction q; fetchFields := fetchFields q;
     snippetFields := snippetFields q; queryVariables := m;
     fetchCategories := fetchCategories q; fetchVariables := fetchVariables q;
     docvarFilters := docvarFilters q; functionFilters := functionFilters q;
     categoryFilters := categoryFilters q |}.

(** [q.queryVariables = variables]: the builder's map becomes the
    argument (nil when the caller passes nil). *)
Definition QueryVariables (variables : option (gmap Z float64))
    (q : queryState) : queryState :=
  set_queryVariables variables q.

(** [q.queryVariables[variable] = val]: an entry of a nil map cannot
    be assigned. *)
Definition QueryVariable (variable : Z) (val : float64) (q : queryState)
  : go queryState :=
  match queryVariables q with
  | Some m => Ret (set_queryVariables (Some (<[variable := val]> m)) q)
  | None => Panic NilMapAssignment
  end.

Definition DocumentVariableFilter (variable : Z) (floor ceil : float64)
    (q : queryState) : queryState :=
  {| queryString := queryString q; start := start q; length' := length' q;
     scoringFunction := scoringFunction q; fetchFields := fetchFields q;
     snippetFields := snippetFields q; queryVariables := queryVariables q;
     fetchCategories := fetchCategories q; fetchVariables := fetchVariables q;
     docvarFilters := docvarFilters q ++ [mkVarRange variable floor ceil];
     functionFilters := functionFilters q;
     categoryFilters := categoryFilters q |}.

Definition FunctionFilter (variable : Z) (floor ceil : float64)
    (q : queryState) : queryState :=
  {| queryString := queryString q; start := start q; length' := length' q;
     scoringFunction := scoringFunction q; fetchFields := fetchFields q;
     snippetFields := snippetFields q; queryVariables := queryVariables q;
     fetchCategories := fetchCategories q; fetchVariables := fetchVariables q;
     docvarFilters := docvarFilters q;
     functionFilters := functionFilters q ++ [mkVarRange variable floor ceil];
     categoryFilters := categoryFilters q |}.

(** [for k, v := range filters { q.categoryFilters[k] = v }]. *)
Definition CategoryFilter (filters : gmap string (list string))
    (q : queryState) : queryState :=
  {| queryString := queryString q; start := start q; length' := length' q;
     scoringFunction := scoringFunction q; fetchFields := fetchFields q;
     snippetFields := snippetFields q; queryVariables := queryVariables q;
     fetchCategories := fetchCategories q; fetchVariables := fetchVariables q;
     docvarFilters := docvarFilters q; functionFilters := functionFilters q;
     categoryFilters :=
       map_fold (fun k v acc => <[k := v]> acc) (categoryFilters q) filters |}.

(** *** Ranging over a map

    Go leaves the order in which [for k, v := range m] visits the
    entries of [m] to the runtime, which picks one afresh at every
    loop.  A function whose result depends on that order takes the order
    the runtime picked as an argument, [visit]; the orders the runtime
    can pick are the arrangements of the map's entries. *)
Definition range_order {K V : Type} `{Countable K}
    (m : gmap K V) (visit : list (K * V)) : Prop :=
  visit ≡ₚ map_to_list m.

(** One parameter of a query string: [k=v], [v] escaped. *)
Definition render (kv : string * string) : string :=
  kv.1 +:+ "=" +:+ QueryEscape kv.2.

(** [for k, v := range params { s += k + "=" + url.QueryEscape(v) + "&" }] *)
Definition toQueryString_loop (visit : list (string * string)) : string :=
  foldl (fun s kv => s +:+ kv.1 +:+ "=" +:+ QueryEscape kv.2 +:+ "&")
        "" visit.

(** toQueryString (the transport helper's), on the order [visit] of its
    loop. *)
Definition toQueryString (params : option (gmap string string))
    (visit : list (string * string)) : go string :=
  match params with
  | None => Ret ""
  | Some _ =>
      let s := toQueryString_loop visit in
      if decide (s = "") then Panic SliceOutOfRange else Ret (drop_last s)
  end.

Section Serialization.

(** The library calls of the serializer, which the sources leave to Go:
    [strconv.FormatFloat(v, 'g', -1, 64)], [fmt.Sprintf("%f", v)] and
    [string(json.Marshal(filters))]. *)
Variable FormatFloat_g : float64 -> string.
Variable Sprintf_f : float64 -> string.
Variable json_Marshal : gmap string (list string) -> string.

(** One turn of formatRangeParam's loop.  The [totalValue] that the
    [if] declares is a variable of its own: the joined value it gets
    ends with the [if], and the outer [totalValue] is stored. *)
Definition formatRangeParam_step (params : gmap string string) (v : varRange)
  : gmap string string :=
  let k := Itoa (vr_id v) in
  let newValue :=
    FormatFloat_g (vr_floor v) +:+ ":" +:+ FormatFloat_g (vr_ceil v) in
  let totalValue := newValue in
  let _ :=
    (let '(totalValue, ok) := comma_ok params k in
     if ok then totalValue +:+ "," +:+ newValue else totalValue) in
  <[k := totalValue]> params.

Definition formatRangeParam (ranges : list varRange) : gmap string string :=
  foldl formatRangeParam_step ∅ ranges.

(** [if c { ... }] around an update of [params]. *)
Definition when {A : Type} (c : bool) (update : A -> A) (a : A) : A :=
  if c then update a else a.

(** [for k, v := range m { params[prefix+k] = v }] and the like: the
    entries a loop stores, on the order [visit] of the loop. *)
Definition store_all {K V : Type} (key : K -> string) (val : V -> string)
    (visit : list (K * V)) (params : gmap string string)
  : gmap string string :=
  foldl (fun p kv => <[key kv.1 := val kv.2]> p) params visit.

(** The [params] map ToQueryParams has built when it reaches its last
    statement.  (The string [s] it builds beside the map is overwritten
    there and is left out.)  Its three loops over a map store under
    distinct keys, so the order of their visits does not show in the
    map; they are run on the order [map_to_list] gives, and
    [params_loops_order_irrelevant] below shows that any other order
    stores the same. *)
Definition ToQueryParams_params (q : queryState) : gmap string string :=
  let params : gmap string string := ∅ in
  let params := <["q" := queryString q]> params in
  let params :=
    when (bool_decide (0 < start q))
      <["start" := Itoa (start q)]> params in
  let params := <["len" := Itoa (length' q)]> params in
  let params :=
    when (bool_decide (0 < scoringFunction q))
      <["function" := Itoa (scoringFunction q)]> params in
  let params :=
    when (bool_decide (0 < length (snippetFields q))%nat)
      <["snippet" := Join (snippetFields q) ","]> params in
  let params :=
    when (bool_decide (0 < length (fetchFields q))%nat)
      <["fetch" := Join (fetchFields q) ","]> params in
  let vars := default ∅ (queryVariables q) in
  let params :=
    when (bool_decide (0 < size vars)%nat)
      (store_all (fun k => "var" +:+ Itoa k) Sprintf_f (map_to_list vars))
      params in
  let params :=
    when (fetchVariables q) <["fetch_variables" := "*"]> params in
  let params :=
    when (fetchCategories q) <["fetch_categories" := "*"]> params in
  let params :=
    when (bool_decide (0 < size (categoryFilters q))%nat)
      <["category_filters" := json_Marshal (categoryFilters q)]> params in
  let params :=
    when (bool_decide (0 < length (docvarFilters q))%nat)
      (store_all (fun k => "filter_docvar" +:+ k) id
         (map_to_list (formatRangeParam (docvarFilters q))))
      params in
  let params :=
    when (bool_decide (0 < length (functionFilters q))%nat)
      (store_all (fun k => "filter_function" +:+ k) id
         (map_to_list (formatRangeParam (functionFilters q))))
      params in
  params.

(** ToQueryParams: [s = toQueryString(params); return s], on the order
    [visit] of toQueryString's loop over [params]. *)
Definition ToQueryParams (q : queryState) (visit : list (string * string))
  : go string :=
  toQueryString (Some (ToQueryParams_params q)) visit.

(** [s] is a string ToQueryParams can return on [q]: the one it returns
    on some order the runtime can pick. *)
Definition ToQueryParams_returns (q : queryState) (s : string) : Prop :=
  ∃ visit, range_order (ToQueryParams_params q) visit
           ∧ ToQueryParams q visit = Ret s.

End Serialization.

(** The text of one range, [floor:ceil], as formatRangeParam makes it
    from the formatter of the bounds. *)
Definition range_text (FormatFloat_g : float64 -> string) (v : varRange)
  : string :=
  FormatFloat_g (vr_floor v) +:+ ":" +:+ FormatFloat_g (vr_ceil v).

(** ** The transport helper and the index client *)

(** An [error] value: every error these sources make is a text. *)
Inductive error : Type := errors_New (text : string).

Global Instance error_eq_dec : EqDecision error.
Proof. solve_decision. Defined.

(** A response as the client reads it: the status code, the status
    line, and what [ioutil.ReadAll(resp.Body)] returns. *)
Record Response : Type := mkResponse {
  StatusCode : Z;
  Status : string;
  Body : string;
  ReadErr : option error
}.

(** What [request] returns: a response and no error, or no response
    and an error.  Each operation below sends its request and then reads
    the answer; its model takes the answer as the argument [reply].
    ([http.Client.Do] can also return a response together with an error,
    when its redirect policy fails.  A caller that tests the error first
    does not read that response, and is answered by [Failed]; doRequest
    does not read the error, and is answered by [Replied].  UpdateIndex
    reads both and takes them apart, see below.) *)
Inductive sent : Type :=
| Replied (resp : Response)
| Failed (err : error).

#[local] Set Warnings "-register-all".
(** A decoded JSON value ([interface{}] after [json.Unmarshal]). *)
Inductive jsonValue : Type :=
| JNull
| JBool (b : bool)
| JNumber (f : float64)
| JString (s : string)
| JArray (l : list jsonValue)
| JObject (m : gmap string jsonValue).
#[local] Set Warnings "register-all".

Record IndexClient : Type := mkIndexClient {
  url : string;
  metadata : option (gmap string jsonValue)
}.

Record indexTankClient : Type := mkIndexTankClient {
  apiUrl : string
}.

Definition newline : string := String (ascii_of_N 10) EmptyString.

Definition makeIndexUrl (apiUrl0 name : string) : string :=
  apiUrl0 +:+ "/v1/indexes/" +:+ name.

Definition isOk (status : Z) : bool := bool_decide (status `quot` 100 = 2).

Definition readResponseBody (resp : Response) : string * option error :=
  match ReadErr resp with
  | Some err => ("", Some err)
  | None => (Body resp, None)
  end.

(** [fmt.Errorf("Unexpected %d error: %s", resp.StatusCode, resp.Status)] *)
Definition unexpected_status (resp : Response) : error :=
  errors_New ("Unexpected " +:+ Itoa (StatusCode resp) +:+ " error: "
              +:+ Status resp).

Section Client.

(** [json.Unmarshal] at the three types the client decodes to.  Into
    an [interface{}] it is read for both of its results: the value it
    has stored ([JNull], the nil interface, when it stored none) and its
    error; a value can come with an error, as an object does that holds
    a number out of the range of [float64].  At the two list types the
    callers drop the value when there is an error: the error, or the
    decoded list. *)
Variable Unmarshal_any : string -> jsonValue * option error.
Variable Unmarshal_addResults : string -> error + list addResult.
Variable Unmarshal_deleteResults : string -> error + list deleteResult.

(** doRequest from [defer resp.Body.Close()] on. *)
Definition doRequest_read (reply : sent)
  : go (option (gmap string jsonValue) * option error) :=
  match reply with
  | Failed _ => Panic NilDereference
  | Replied resp =>
      if decide (StatusCode resp = 404) then
        Ret (None, Some (errors_New "Index does not exist"))
      else if decide (StatusCode resp = 204) then
        Ret (None, Some (errors_New
               ("Index Already Exists " +:+ Itoa (StatusCode resp))))
      else if decide (400 <= StatusCode resp) then
        Ret (None, Some (errors_New
               ("HTTP response " +:+ Itoa (StatusCode resp))))
      else if decide (Body resp = "") then Ret (None, ReadErr resp)
      else
        let decoded := Unmarshal_any (Body resp) in
        match decoded.1 with
        | JObject m => Ret (Some m, decoded.2)
        | _ => Panic TypeAssertion
        end
  end.

(** doRequest: the query string is built first, on the order [visit]
    of toQueryString's loop, then the request is sent and read. *)
Definition doRequest (params : option (gmap string string))
    (visit : list (string * string)) (reply : sent)
  : go (option (gmap string jsonValue) * option error) :=
  _ ← toQueryString params visit;
  doRequest_read reply.

Definition refreshMetadata (client : IndexClient) (reply : sent)
  : go (option (gmap string jsonValue) * option error) :=
  doRequest None [] reply.

(** GetMetadata: the cached metadata, fetched when there is none. *)
Definition GetMetadata (client : IndexClient) (reply : sent)
  : go (IndexClient * (option (gmap string jsonValue) * option error)) :=
  match metadata client with
  | None =>
      r ← refreshMetadata client reply;
      Ret (mkIndexClient (url client) r.1, (r.1, r.2))
  | Some m => Ret (client, (Some m, None))
  end.

Definition Exists (client : IndexClient) (reply : sent) : go bool :=
  r ← refreshMetadata client reply;
  Ret (bool_decide (r.2 = None)).

(** CreateIndexWithOptions: [reply] answers the PUT, [meta_reply] the
    GET of the metadata fetch the 201 case makes.  The options only
    shape the body of the PUT. *)
Definition CreateIndexWithOptions (client : IndexClient)
    (options : option (gmap string jsonValue)) (reply meta_reply : sent)
  : go (IndexClient * option error) :=
  match reply with
  | Failed err => Ret (client, Some err)
  | Replied resp =>
      if decide (StatusCode resp = 201) then
        r ← GetMetadata client meta_reply;
        Ret (r.1, None)
      else if decide (StatusCode resp = 204) then
        Ret (client, Some (errors_New "Index already exists"))
      else if decide (StatusCode resp = 409) then
        Ret (client, Some (errors_New
               "Maximum indexes limit reached for this account"))
      else
        Ret (client, Some (errors_New
               ("Unexpected error, HTTP status " +:+ Itoa (StatusCode resp)
                +:+ ": " +:+ Status resp)))
  end.

Definition CreateIndex (client : IndexClient) (reply meta_reply : sent)
  : go (IndexClient * option error) :=
  CreateIndexWithOptions client None reply meta_reply.

Definition AddFunction (client : IndexClient) (functionIndex : Z)
    (definition : string) (reply : sent) : option error :=
  match reply with
  | Failed err => Some err
  | Replied resp =>
      if isOk (StatusCode resp) then None
      else if decide (StatusCode resp = 400
                      ∧ (readResponseBody resp).1 ≠ "") then
        Some (errors_New (readResponseBody resp).1)
      else Some (unexpected_status resp)
  end.

Definition DeleteFunction (client : IndexClient) (functionIndex : Z)
    (reply : sent) : option error :=
  match reply with
  | Failed err => Some err
  | Replied resp =>
      if isOk (StatusCode resp) then None
      else if decide (StatusCode resp = 400) then
        Some (errors_New (Status resp))
      else Some (unexpected_status resp)
  end.

Definition AddDocument (client : IndexClient) (documentId : string)
    (fields : gmap string string) (variables : option (gmap Z float32))
    (categories : option (gmap string string)) (reply : sent)
  : option error :=
  match reply with
  | Failed err => Some err
  | Replied resp =>
      if isOk (StatusCode resp) then None
      else if decide (StatusCode resp = 400 ∧ Body resp ≠ "") then
        Some (errors_New (Body resp))
      else Some (errors_New "Unexpected error adding document")
  end.

Definition AddDocuments (client : IndexClient) (documents : list Document)
    (reply : sent) : go (option addResults * option error) :=
  match reply with
  | Failed err => Ret (None, Some err)
  | Replied resp =>
      if isOk (StatusCode resp) then
        match Unmarshal_addResults (Body resp) with
        | inl err => Ret (None, Some err)
        | inr r =>
            if decide (length documents ≠ length r) then
              Ret (None, Some (errors_New
                ("Something is wrong, we have "
                 +:+ Itoa (Z.of_nat (length documents)) +:+ " docs and "
                 +:+ Itoa (Z.of_nat (length r)) +:+ " results" +:+ newline)))
            else
              bd ← newBatchResults documents r;
              Ret (Some bd, None)
        end
      else if decide (StatusCode resp = 400 ∧ Body resp ≠ "") then
        Ret (None, Some (errors_New (Body resp)))
      else Ret (None, Some (errors_New
                  "Unexpected error adding documents batch"))
  end.

Definition UpdateVariables (client : IndexClient) (documentId : string)
    (variables : option (gmap Z float32)) (reply : sent) : option error :=
  match reply with
  | Failed err => Some err
  | Replied resp =>
      if isOk (StatusCode resp) then None
      else if decide (StatusCode resp = 400 ∧ Body resp ≠ "") then
        Some (errors_New (Body resp))
      else Some (errors_New "Unexpected error updating variables")
  end.

Definition DeleteDocument (client : IndexClient) (documentId : string)
    (reply : sent) : option error :=
  match reply with
  | Failed err => Some err
  | Replied resp =>
      if isOk (StatusCode resp) then None
      else if decide (StatusCode resp = 404) then
        Some (errors_New "Index does not exist")
      else Some (unexpected_status resp)
  end.

Definition DeleteDocuments (client : IndexClient) (documentIds : list string)
    (reply : sent) : go (option deleteResults * option error) :=
  match reply with
  | Failed err => Ret (None, Some err)
  | Replied resp =>
      if decide (StatusCode resp = 200) then
        match Unmarshal_deleteResults (Body resp) with
        | inl err => Ret (None, Some err)
        | inr r =>
            bd ← newBulkResults documentIds r;
            Ret (Some bd, None)
        end
      else if decide (StatusCode resp = 404) then
        Ret (None, Some (errors_New "Index does not exist"))
      else Ret (None, Some (unexpected_status resp))
  end.

(** Search: [doRequest("GET", searchUrl, map[string]string{"q": queryString})],
    on the order [visit] of toQueryString's loop. *)
Definition Search (client : IndexClient) (queryString0 : string)
    (visit : list (string * string)) (reply : sent)
  : go (option (gmap string jsonValue) * option error) :=
  doRequest (Some {["q" := queryString0]}) visit reply.

(** The body of ListIndexes's loop: [v.(map[string]interface{})] and the
    handle built from it. *)
Definition ListIndexes_entry (uri : string) (kv : string * jsonValue)
  : go (string * IndexClient) :=
  match kv.2 with
  | JObject m => Ret (kv.1, mkIndexClient (uri +:+ kv.1) (Some m))
  | _ => Panic TypeAssertion
  end.

Definition ListIndexes (client : indexTankClient) (reply : sent)
  : go (option (gmap string IndexClient) * option error) :=
  let uri := makeIndexUrl (apiUrl client) "" in
  r ← doRequest None [] reply;
  match r.2 with
  | Some err => Ret (None, Some err)
  | None =>
      entries ← mapM (ListIndexes_entry uri)
                  (map_to_list (default ∅ r.1));
      Ret (Some (list_to_map entries), None)
  end.

End Client.

(** ** The rest of the index client, search, and the account client *)

(** [strings.HasSuffix(s, "/")]. *)
Fixpoint HasSuffix_slash (s : string) : bool :=
  match s with
  | EmptyString => false
  | String c EmptyString => Ascii.eqb c "/"
  | String _ s' => HasSuffix_slash s'
  end.

(** The search results as [json.Unmarshal] fills them; [DidYouMean] is
    a pointer and can be nil. *)
Record searchResults : Type := mkSearchResults {
  Matches : Z;
  Query : string;
  SearchTime : string;
  DidYouMean : option string;
  Results : list (gmap string jsonValue);
  Facets : gmap string (gmap string Z)
}.

Definition GetMatches (r : searchResults) : Z := Matches r.
Definition GetQuery (r : searchResults) : string := Query r.
Definition GetResults (r : searchResults) : list (gmap string jsonValue) :=
  Results r.
Definition GetFacets (r : searchResults) : gmap string (gmap string Z) :=
  Facets r.

(** [return *r.DidYouMean] *)
Definition GetDidYouMean (r : searchResults) : go string :=
  match DidYouMean r with
  | Some s => Ret s
  | None => Panic NilDereference
  end.



(** [v.(map[string]interface{})] with the comma-ok form read as an
    option: the object, when [v] is one. *)
Definition as_object (v : jsonValue) : option (gmap string jsonValue) :=
  match v with
  | JObject o => Some o
  | _ => None
  end.




(** DeleteIndex: [_, err := request("DELETE", client.url, nil); return err]. *)
Definition DeleteIndex (client : IndexClient) (reply : sent) : option error :=
  match reply with
  | Failed err => Some err
  | Replied _ => None
  end.

(** [for k, v := range variables { vars[strconv.Itoa(k)] = v }], on the
    order [visit] of the loop. *)
Definition string_keys (visit : list (Z * float32)) : gmap string float32 :=
  foldl (fun vars kv => <[Itoa kv.1 := kv.2]> vars) ∅ visit.

(** NewDocument.  The loop stores under distinct keys, so the order of
    its visits does not show in the map ([string_keys_kmap] below); it
    is run on the order [map_to_list] gives.  A nil [fields] or
    [categories] is the empty map of the [Document]. *)
Definition NewDocument (docid : string) (fields : gmap string string)
    (variables : option (gmap Z float32)) (categories : gmap string string)
  : Document * option error :=
  let vars := string_keys (map_to_list (default ∅ variables)) in
  (mkDocument docid fields vars categories, None).

Definition GetIndex (client : indexTankClient) (name : string) : IndexClient :=
  mkIndexClient (makeIndexUrl (apiUrl client) name) None.

Definition ApiClient_DeleteIndex (client : indexTankClient) (name : string)
    (reply : sent) : option error :=
  DeleteIndex (mkIndexClient (makeIndexUrl (apiUrl client) name) None) reply.

Section MoreClient.

Variable Unmarshal_any : string -> jsonValue * option error.

(** [int(floatVal)], [url.Parse(apiUrl)] as far as NewApiClient reads its
    result (the error or the scheme), and [json.Unmarshal] at the types
    ListFunctions and SearchWithQuery decode to.  Unmarshal into the
    functions map returns the map as far as it was filled beside its
    error. *)
Variable int_of_float64 : float64 -> Z.
Variable url_Parse : string -> error + string.
Variable Unmarshal_functions : string -> gmap string string * option error.
Variable Unmarshal_searchResults : string -> error + searchResults.

Variable FormatFloat_g : float64 -> string.
Variable Sprintf_f : float64 -> string.
Variable json_Marshal : gmap string (list string) -> string.

Definition NewApiClient (apiUrl0 : string)
  : option indexTankClient * option error :=
  match url_Parse apiUrl0 with
  | inl err => (None, Some err)
  | inr scheme =>
      if decide (scheme ≠ "http" ∧ scheme ≠ "https") then
        (None, Some (errors_New "URL scheme must be http or https"))
      else
        let apiUrl1 :=
          if HasSuffix_slash apiUrl0 then drop_last apiUrl0 else apiUrl0 in
        (Some (mkIndexTankClient apiUrl1), None)
  end.



(** getMetadata: the item [s] of the metadata, fetched when there is
    none; a missing item and a null one are an error. *)
Definition getMetadata (client : IndexClient) (s : string) (reply : sent)
  : go (IndexClient * (option jsonValue * option error)) :=
  r ← GetMetadata Unmarshal_any client reply;
  match r.2.2 with
  | Some err => Ret (r.1, (None, Some err))
  | None =>
      match default ∅ r.2.1 !! s with
      | None | Some JNull =>
          Ret (r.1, (None, Some (errors_New "No such metadata item")))
      | Some val => Ret (r.1, (Some val, None))
      end
  end.

(** UpdateIndex: [resp, err := request("PUT", client.url, options)]
    answers the PUT, [meta_reply] the GET of the refresh a 2xx status
    makes.  UpdateIndex tests neither result before it reads
    [resp.StatusCode], and returns [err] at its end: the model takes the
    two results as they come, a nil response ([None]) and a response
    that comes with an error included. *)
Definition UpdateIndex (client : IndexClient)
    (options : option (gmap string jsonValue))
    (resp : option Response) (err : option error) (meta_reply : sent)
  : go (IndexClient * option error) :=
  match resp with
  | None => Panic NilDereference
  | Some resp =>
      if isOk (StatusCode resp) then
        r ← refreshMetadata Unmarshal_any client meta_reply;
        Ret (mkIndexClient (url client) r.1, None)
      else if decide (StatusCode resp = 404) then
        Ret (client, Some (errors_New "Index does not exist"))
      else Ret (client, err)
  end.

(** ListFunctions: the status is not read. *)
Definition ListFunctions (client : IndexClient) (reply : sent)
  : option (gmap string string) * option error :=
  match reply with
  | Failed err => (None, Some err)
  | Replied resp =>
      if decide (Body resp = "") then (None, ReadErr resp)
      else
        let r := Unmarshal_functions (Body resp) in
        (Some r.1, r.2)
  end.

(** SearchWithQuery: the query string is built first, on the order
    [visit] of toQueryString's loop, then the request is sent and read. *)
Definition SearchWithQuery (client : IndexClient) (query : queryState)
    (visit : list (string * string)) (reply : sent)
  : go (option searchResults * option error) :=
  _ ← ToQueryParams FormatFloat_g Sprintf_f json_Marshal query visit;
  match reply with
  | Failed err => Ret (None, Some err)
  | Replied resp =>
      if isOk (StatusCode resp) then
        match Unmarshal_searchResults (Body resp) with
        | inl err => Ret (None, Some err)
        | inr sr =>
            let sr :=
              match DidYouMean sr with
              | None =>
                  mkSearchResults (Matches sr) (Query sr) (SearchTime sr)
                    (Some "") (Results sr) (Facets sr)
              | Some _ => sr
              end in
            Ret (Some sr, None)
        end
      else if decide (StatusCode resp = 404) then
        Ret (None, Some (errors_New "Index does not exist"))
      else
        Ret (None, Some (errors_New
               ("Unexpected " +:+ Itoa (StatusCode resp) +:+ " error: "
                +:+ Body resp)))
  end.

(** The account client's calls make a handle for the name and call the
    index client on it; the create calls return the handle beside the
    error. *)
Definition ApiClient_CreateIndex (client : indexTankClient) (name : string)
    (reply meta_reply : sent) : go (IndexClient * option error) :=
  CreateIndex Unmarshal_any
    (mkIndexClient (makeIndexUrl (apiUrl client) name) None)
    reply meta_reply.

Definition ApiClient_CreateIndexWithOptions (client : indexTankClient)
    (name : string) (options : option (gmap string jsonValue))
    (reply meta_reply : sent) : go (IndexClient * option error) :=
  CreateIndexWithOptions Unmarshal_any
    (mkIndexClient (makeIndexUrl (apiUrl client) name) None)
    options reply meta_reply.

Definition ApiClient_UpdateIndex (client : indexTankClient) (name : string)
    (options : option (gmap string jsonValue))
    (resp : option Response) (err : option error) (meta_reply : sent)
  : go (option error) :=
  r ← UpdateIndex (mkIndexClient (makeIndexUrl (apiUrl client) name) None)
        options resp err meta_reply;
  Ret r.2.

End MoreClient.

(** ** Reading a query string back *)

(** Whether the byte [c] occurs in [s]. *)
Fixpoint occurs (c : ascii) (s : string) : bool :=
  match s with
  | EmptyString => false
  | String a s' => Ascii.eqb a c || occurs c s'
  end.

(** The keys a query string keeps apart from their values and from each
    other: no [&] and no [=] in them. *)
Definition plain_key (k : string) : Prop :=
  occurs "&" k = false ∧ occurs "=" k = false.

(** [s] cut at the first [c]: what is before it, and what is after it
    when there is one. *)
Fixpoint split_at (c : ascii) (s : string) : string * option string :=
  match s with
  | EmptyString => (EmptyString, None)
  | String a s' =>
      if Ascii.eqb a c then (EmptyString, Some s')
      else let r := split_at c s' in (String a r.1, r.2)
  end.

(** The value of an upper-case hexadecimal digit. *)
Definition unhex (c : ascii) : N :=
  let n := N_of_ascii c in
  if (n <=? 57)%N then (n - 48)%N else (n - 55)%N.

(** * Properties *)

(** ** The batch result correlator *)

Lemma index_nat {A} (s : list A) (n : nat) x :
  s !! n = Some x → index s (Z.of_nat n) = Ret x.
Proof.
  intros Hx. unfold index. rewrite decide_True by lia.
  by rewrite Nat2Z.id, Hx.
Qed.

Lemma assign_nat {A} (s : list A) (n : nat) x :
  (n < length s)%nat → assign s (Z.of_nat n) x = Ret (<[n := x]> s).
Proof.
  intros Hn. unfold assign. rewrite decide_True by lia. by rewrite Nat2Z.id.
Qed.

Lemma drop_cons_inv {A} (l : list A) n x rest :
  drop n l = x :: rest → l !! n = Some x ∧ drop (S n) l = rest.
Proof.
  intros Hdrop.
  assert (l !! n = Some x) as Hx.
  { rewrite <-(Nat.add_0_r n), <-lookup_drop, Hdrop. done. }
  split; [done|]. rewrite (drop_S _ _ _ Hx) in Hdrop. congruence.
Qed.

Lemma newBatchResults_loop_correlate documents r : ∀ n t,
  length (drop n documents) = length r →
  (n + length r ≤ length (results t))%nat →
  newBatchResults_loop documents (Z.of_nat n) r t
  = Ret (correlate Added add_Error (drop n documents) r n t).
Proof.
  induction r as [|v r IH]; intros n t Hlen Hres; simpl.
  - by destruct (drop n documents).
  - destruct (drop n documents) as [|doc rest] eqn:Hdrop; [done|].
    apply drop_cons_inv in Hdrop as [Hdoc Hrest].
    rewrite (index_nat _ _ _ Hdoc). simpl.
    rewrite assign_nat by (simpl in Hres; lia). simpl.
    replace (Z.of_nat n + 1) with (Z.of_nat (S n)) by lia.
    simpl in Hlen, Hres.
    rewrite IH.
    + rewrite Hrest. by destruct (Added v).
    + rewrite Hrest. lia.
    + destruct (Added v); simpl; rewrite length_insert; lia.
Qed.

Lemma newBulkResults_loop_correlate documentIds r : ∀ n t,
  length (drop n documentIds) = length r →
  (n + length r ≤ length (results t))%nat →
  newBulkResults_loop documentIds (Z.of_nat n) r t
  = Ret (correlate Deleted delete_Error (drop n documentIds) r n t).
Proof.
  induction r as [|v r IH]; intros n t Hlen Hres; simpl.
  - by destruct (drop n documentIds).
  - destruct (drop n documentIds) as [|doc rest] eqn:Hdrop; [done|].
    apply drop_cons_inv in Hdrop as [Hdoc Hrest].
    rewrite assign_nat by (simpl in Hres; lia). simpl.
    replace (Z.of_nat n + 1) with (Z.of_nat (S n)) by lia.
    simpl in Hlen, Hres.
    destruct (Deleted v) eqn:Hd; simpl.
    + rewrite IH; [by rewrite Hrest | rewrite Hrest; lia | simpl; rewrite length_insert; lia].
    + rewrite (index_nat _ _ _ Hdoc). simpl.
      rewrite IH; [by rewrite Hrest | rewrite Hrest; lia | simpl; rewrite length_insert; lia].
Qed.

Section CorrelateFacts.
Context {E O : Type} (ok : O → bool) (msg : O → string).
Implicit Types (els : list E) (os : list O) (t : tally E).

Lemma correlate_errorFlag els : ∀ os n t,
  length els = length os →
  errorFlag (correlate ok msg els os n t)
  = errorFlag t || existsb (λ o, negb (ok o)) os.
Proof.
  induction els as [|e els IH]; intros [|o os] n t Hlen; simplify_eq/=.
  - by rewrite orb_false_r.
  - rewrite IH by done. destruct (ok o); simpl; [done|]. by rewrite orb_true_r.
Qed.

Lemma correlate_failed els : ∀ os n t,
  failed (correlate ok msg els os n t)
  = failed t ++ (filter (λ p, ok p.2 = false) (zip els os)).*1.
Proof.
  induction els as [|e els IH]; intros [|o os] n t; simpl;
    rewrite ?app_nil_r; try done.
  rewrite IH. destruct (ok o) eqn:Hok.
  - by rewrite filter_cons_False by (simpl; congruence).
  - rewrite filter_cons_True by done. simpl. by rewrite <-app_assoc.
Qed.

Lemma correlate_results els : ∀ os n t j,
  length els = length os →
  (n + length os ≤ length (results t))%nat →
  results (correlate ok msg els os n t) !! j
  = if decide (n ≤ j < n + length os)%nat then ok <$> os !! (j - n)%nat
    else results t !! j.
Proof.
  induction els as [|e els IH]; intros [|o os] n t j Hlen Hres;
    simplify_eq/=.
  - rewrite decide_False by lia. done.
  - rewrite IH; [|done|destruct (ok o); simpl; rewrite length_insert; lia].
    destruct (decide (j = n)) as [->|Hne].
    + rewrite decide_False by lia. rewrite decide_True by lia.
      rewrite Nat.sub_diag. simpl.
      destruct (ok o); simpl; by rewrite list_lookup_insert_eq by lia.
    + case_decide.
      * rewrite decide_True by lia.
        replace (j - n)%nat with (S (j - S n)) by lia. done.
      * rewrite decide_False by lia.
        destruct (ok o); simpl; by rewrite list_lookup_insert_ne by done.
Qed.

Lemma correlate_errors els : ∀ os n t (k : Z),
  length els = length os →
  errors (correlate ok msg els os n t) !! k
  = if decide (Z.of_nat n ≤ k < Z.of_nat (n + length os)) then
      match os !! (Z.to_nat k - n)%nat with
      | Some o => if ok o then errors t !! k else Some (msg o)
      | None => errors t !! k
      end
    else errors t !! k.
Proof.
  induction els as [|e els IH]; intros [|o os] n t k Hlen;
    simplify_eq/=.
  - rewrite decide_False by lia. done.
  - rewrite IH by done.
    destruct (decide (k = Z.of_nat n)) as [->|Hne].
    + rewrite decide_False by lia. rewrite decide_True by lia.
      rewrite Nat2Z.id, Nat.sub_diag. simpl.
      destruct (ok o); simpl; [done|]. by rewrite lookup_insert_eq.
    + case_decide.
      * rewrite decide_True by lia.
        replace (Z.to_nat k - n)%nat with (S (Z.to_nat k - S n)) by lia.
        simpl. destruct (os !! _) as [o'|]; simpl;
          destruct (ok o); simpl; try done; by rewrite lookup_insert_ne by done.
      * rewrite decide_False by lia.
        destruct (ok o); simpl; [done|]. by rewrite lookup_insert_ne by done.
Qed.

(** What the correlator's result object answers, for a loop run over
    all of [els] from an empty tally. *)
Lemma correlate_answers els os :
  length els = length os →
  let t := correlate ok msg els os 0 (mkTally false (replicate (length els) false) ∅ []) in
  (errorFlag t = true ↔ ∃ o, o ∈ os ∧ ok o = false) ∧
  failed t = (filter (λ p, ok p.2 = false) (zip els os)).*1 ∧
  ∀ (i : nat) e o, els !! i = Some e → os !! i = Some o →
    index (results t) (Z.of_nat i) = Ret (ok o) ∧
    comma_ok (errors t) (Z.of_nat i)
    = if ok o then ("", false) else (msg o, true).
Proof.
  intros Hlen t. split; [|split].
  - unfold t. rewrite correlate_errorFlag by done. simpl.
    rewrite existsb_exists. split.
    + intros (o & Hin & Ho). exists o. split; [by apply list_elem_of_In|].
      by destruct (ok o).
    + intros (o & Hin & Ho). exists o. split; [by apply list_elem_of_In|].
      by rewrite Ho.
  - unfold t. by rewrite correlate_failed.
  - intros i e o He Ho.
    pose proof (lookup_lt_Some _ _ _ Ho) as Hi.
    split.
    + apply index_nat. unfold t.
      rewrite correlate_results by (simpl; rewrite ?length_replicate; lia).
      rewrite decide_True by lia. by rewrite Nat.sub_0_r, Ho.
    + unfold comma_ok, t. rewrite correlate_errors by done.
      rewrite decide_True by lia.
      rewrite Nat2Z.id, Nat.sub_0_r, Ho. simpl.
      by destruct (ok o).
Qed.
End CorrelateFacts.

Lemma batch_results_answer_exists (documents : list Document)
    (r : list addResult) :
  length documents = length r → ∃ bd, newBatchResults documents r = Ret bd.
Proof.
  intros Hlen. unfold newBatchResults.
  destruct (decide _) as [Hne|_]; [congruence|].
  rewrite (newBatchResults_loop_correlate documents r 0%nat)
    by (simpl; rewrite ?drop_0, ?length_replicate; lia).
  simpl. by eexists.
Qed.

Lemma bulk_results_answer_exists (documentIds : list string)
    (r : list deleteResult) :
  length documentIds = length r → ∃ bd, newBulkResults documentIds r = Ret bd.
Proof.
  intros Hlen. unfold newBulkResults.
  destruct (decide _) as [Hne|_]; [congruence|].
  rewrite (newBulkResults_loop_correlate documentIds r 0%nat)
    by (simpl; rewrite ?drop_0, ?length_replicate; lia).
  simpl. by eexists.
Qed.

(** C1.  For parallel lists of N submitted documents (document ids) and
    N outcome records the correlator returns a result object, and on it:
    HasErrors is true exactly when some outcome is unsuccessful;
    GetFailedDocuments (GetFailedDocids) is the list of the inputs whose
    outcome is unsuccessful, in their original order; and at every
    position i < N, GetResult is outcome i's flag, GetDocument (GetDocid)
    is input i, and GetErrorMessage is outcome i's error text with
    ok = true when outcome i failed, and ok = false when it succeeded. *)
Theorem batch_results_correlate
    (documents : list Document) (ra : list addResult)
    (documentIds : list string) (rd : list deleteResult) :
  length documents = length ra →
  length documentIds = length rd →
  (∃ b, newBatchResults documents ra = Ret b ∧
     (add_HasErrors b = true ↔ ∃ v, v ∈ ra ∧ Added v = false) ∧
     GetFailedDocuments b
     = (filter (λ p, Added p.2 = false) (zip documents ra)).*1 ∧
     ∀ (i : nat) doc v, documents !! i = Some doc → ra !! i = Some v →
       add_GetResult b (Z.of_nat i) = Ret (Added v) ∧
       GetDocument b (Z.of_nat i) = Ret doc ∧
       add_GetErrorMessage b (Z.of_nat i)
       = if Added v then ("", false) else (add_Error v, true)) ∧
  (∃ b, newBulkResults documentIds rd = Ret b ∧
     (del_HasErrors b = true ↔ ∃ v, v ∈ rd ∧ Deleted v = false) ∧
     GetFailedDocids b
     = (filter (λ p, Deleted p.2 = false) (zip documentIds rd)).*1 ∧
     ∀ (i : nat) docid v, documentIds !! i = Some docid → rd !! i = Some v →
       del_GetResult b (Z.of_nat i) = Ret (Deleted v) ∧
       GetDocid b (Z.of_nat i) = Ret docid ∧
       del_GetErrorMessage b (Z.of_nat i)
       = if Deleted v then ("", false) else (delete_Error v, true)).
Proof.
  intros Ha Hd. split.
  - unfold newBatchResults. destruct (decide _) as [Hne|_]; [congruence|].
    rewrite (newBatchResults_loop_correlate documents ra 0%nat)
      by (simpl; rewrite ?drop_0, ?length_replicate; lia).
    rewrite drop_0.
    simpl. eexists. split; [reflexivity|].
    destruct (correlate_answers Added add_Error documents ra Ha)
      as (Hflag & Hfailed & Hpos).
    split; [exact Hflag|]. split; [exact Hfailed|].
    intros i doc v Hdoc Hv. destruct (Hpos i doc v Hdoc Hv) as [Hres Herr].
    split; [exact Hres|]. split; [|exact Herr].
    by apply index_nat.
  - unfold newBulkResults. destruct (decide _) as [Hne|_]; [congruence|].
    rewrite (newBulkResults_loop_correlate documentIds rd 0%nat)
      by (simpl; rewrite ?drop_0, ?length_replicate; lia).
    rewrite drop_0.
    simpl. eexists. split; [reflexivity|].
    destruct (correlate_answers Deleted delete_Error documentIds rd Hd)
      as (Hflag & Hfailed & Hpos).
    split; [exact Hflag|]. split; [exact Hfailed|].
    intros i doc v Hdoc Hv. destruct (Hpos i doc v Hdoc Hv) as [Hres Herr].
    split; [exact Hres|]. split; [|exact Herr].
    by apply index_nat.
Qed.

Lemma batch_results_correlate_witness :
  let doc1 := mkDocument "a" ∅ ∅ ∅ in
  let doc2 := mkDocument "b" ∅ ∅ ∅ in
  ∃ b d,
    newBatchResults [doc1; doc2]
      [mkAddResult true ""; mkAddResult false "too long"] = Ret b ∧
    GetFailedDocuments b = [doc2] ∧
    newBulkResults ["a"; "b"]
      [mkDeleteResult false "missing"; mkDeleteResult true ""] = Ret d ∧
    GetFailedDocids d = ["a"].
Proof.
  intros doc1 doc2.
  destruct (batch_results_correlate [doc1; doc2]
              [mkAddResult true ""; mkAddResult false "too long"]
              ["a"; "b"]
              [mkDeleteResult false "missing"; mkDeleteResult true ""]
              eq_refl eq_refl)
    as [(b & Hb & _ & Hfailed & _) (d & Hd & _ & Hfailed' & _)].
  exists b, d. split; [exact Hb|]. split; [exact Hfailed|].
  split; [exact Hd|exact Hfailed'].
Defined.

(** ** Batch add and batch delete on a response of the wrong length *)

(** C2.  When the body of the response decodes to a list of outcome
    records whose length differs from the number of submitted items, a
    batch add whose status is 2xx returns no result object and the error
    that reports both counts, and a batch delete whose status is 200
    panics with the correlator's consistency message; whatever the
    status, neither call returns a result object. *)
Theorem batch_length_mismatch_fails
    (Unmarshal_addResults : string → error + list addResult)
    (Unmarshal_deleteResults : string → error + list deleteResult)
    (client : IndexClient)
    (documents : list Document) (resp_add : Response) (ra : list addResult)
    (documentIds : list string) (resp_del : Response)
    (rd : list deleteResult) :
  Unmarshal_addResults (Body resp_add) = inr ra →
  length ra ≠ length documents →
  Unmarshal_deleteResults (Body resp_del) = inr rd →
  length rd ≠ length documentIds →
  (isOk (StatusCode resp_add) = true →
   AddDocuments Unmarshal_addResults client documents (Replied resp_add)
   = Ret (None, Some (errors_New
       ("Something is wrong, we have "
        +:+ Itoa (Z.of_nat (length documents)) +:+ " docs and "
        +:+ Itoa (Z.of_nat (length ra)) +:+ " results" +:+ newline)))) ∧
  (StatusCode resp_del = 200 →
   DeleteDocuments Unmarshal_deleteResults client documentIds
     (Replied resp_del)
   = Panic (PanicMsg
       "Something is wrong, len(documentIds) != len(r) in newBulkResults")) ∧
  (∀ b e,
     AddDocuments Unmarshal_addResults client documents (Replied resp_add)
     ≠ Ret (Some b, e)) ∧
  (∀ b e,
     DeleteDocuments Unmarshal_deleteResults client documentIds
       (Replied resp_del)
     ≠ Ret (Some b, e)).
Proof.
  intros Hra Hlen_a Hrd Hlen_d.
  assert (Hbulk : newBulkResults documentIds rd
                  = Panic (PanicMsg
      "Something is wrong, len(documentIds) != len(r) in newBulkResults")).
  { unfold newBulkResults. by rewrite decide_True by congruence. }
  repeat split.
  - intros Hok. unfold AddDocuments. rewrite Hok, Hra.
    by rewrite decide_True by congruence.
  - intros H200. unfold DeleteDocuments.
    rewrite decide_True by done. by rewrite Hrd, Hbulk.
  - intros b e. unfold AddDocuments. rewrite Hra.
    destruct (isOk _); [by rewrite decide_True by congruence|].
    by case_decide.
  - intros b e. unfold DeleteDocuments. rewrite Hrd, Hbulk.
    repeat case_decide; done.
Qed.

Lemma batch_length_mismatch_fails_witness :
  let doc := mkDocument "a" ∅ ∅ ∅ in
  let resp := mkResponse 200 "200 OK" "[]" None in
  AddDocuments (λ _, inr []) (mkIndexClient "http://api/v1/indexes/idx" None)
    [doc] (Replied resp)
  = Ret (None, Some (errors_New
      ("Something is wrong, we have 1 docs and 0 results" +:+ newline))) ∧
  DeleteDocuments (λ _, inr []) (mkIndexClient "http://api/v1/indexes/idx" None)
    ["a"] (Replied resp)
  = Panic (PanicMsg
      "Something is wrong, len(documentIds) != len(r) in newBulkResults").
Proof.
  intros doc resp.
  destruct (batch_length_mismatch_fails (λ _, inr []) (λ _, inr [])
              (mkIndexClient "http://api/v1/indexes/idx" None)
              [doc] resp [] ["a"] resp [])
    as (Hadd & Hdel & _); [reflexivity|simpl; lia|reflexivity|simpl; lia|].
  split; [exact (Hadd eq_refl)|exact (Hdel eq_refl)].
Defined.

(** ** Serializing a query *)

(** *** Strings *)

Lemma append_cons (c : ascii) (s1 s2 : string) :
  String c s1 +:+ s2 = String c (s1 +:+ s2).
Proof. reflexivity. Qed.

Lemma append_nil_r (s : string) : s +:+ "" = s.
Proof. induction s as [|c s IH]; [done|]. by rewrite append_cons, IH. Qed.

Lemma append_assoc (s1 s2 s3 : string) :
  (s1 +:+ s2) +:+ s3 = s1 +:+ (s2 +:+ s3).
Proof.
  induction s1 as [|c s1 IH]; [done|]. by rewrite !append_cons, IH.
Qed.

Lemma append_eq_nil (s1 s2 : string) : s1 +:+ s2 = "" → s1 = "" ∧ s2 = "".
Proof. destruct s1; [done|]. rewrite append_cons. discriminate. Qed.

Lemma drop_last_append (s1 s2 : string) :
  s2 ≠ "" → drop_last (s1 +:+ s2) = s1 +:+ drop_last s2.
Proof.
  intros Hs2. induction s1 as [|c s1 IH]; [done|].
  rewrite !append_cons. simpl. rewrite IH.
  destruct (s1 +:+ s2) eqn:Heq; [|done].
  by apply append_eq_nil in Heq as [_ ?].
Qed.

(** *** toQueryString *)

Lemma toQueryString_loop_acc visit : ∀ acc,
  foldl (λ s kv, s +:+ kv.1 +:+ "=" +:+ QueryEscape kv.2 +:+ "&") acc visit
  = acc +:+ toQueryString_loop visit.
Proof.
  unfold toQueryString_loop.
  induction visit as [|kv visit IH]; intros acc; simpl.
  - by rewrite append_nil_r.
  - rewrite IH, (IH ("" +:+ _)). by rewrite append_assoc.
Qed.

Lemma toQueryString_loop_cons kv visit :
  toQueryString_loop (kv :: visit)
  = render kv +:+ "&" +:+ toQueryString_loop visit.
Proof.
  unfold toQueryString_loop at 1. simpl.
  rewrite toQueryString_loop_acc. unfold render.
  by rewrite !append_assoc.
Qed.

Lemma toQueryString_loop_nonempty kv visit :
  toQueryString_loop (kv :: visit) ≠ "".
Proof.
  rewrite toQueryString_loop_cons. intros Heq.
  apply append_eq_nil in Heq as [_ Heq]. discriminate Heq.
Qed.

Lemma drop_last_toQueryString_loop kv visit :
  drop_last (toQueryString_loop (kv :: visit))
  = Join (render <$> kv :: visit) "&".
Proof.
  revert kv. induction visit as [|kv' visit IH]; intros kv.
  - rewrite toQueryString_loop_cons. unfold toQueryString_loop. simpl.
    rewrite drop_last_append by done. simpl. by rewrite append_nil_r.
  - rewrite toQueryString_loop_cons.
    rewrite drop_last_append.
    2:{ intros Heq. apply append_eq_nil in Heq as [Heq _]. discriminate Heq. }
    assert (drop_last ("&" +:+ toQueryString_loop (kv' :: visit))
            = "&" +:+ drop_last (toQueryString_loop (kv' :: visit))) as ->.
    { apply drop_last_append, toQueryString_loop_nonempty. }
    rewrite IH. done.
Qed.

Lemma toQueryString_Some params kv visit :
  toQueryString (Some params) (kv :: visit)
  = Ret (Join (render <$> kv :: visit) "&").
Proof.
  unfold toQueryString.
  rewrite decide_False by apply toQueryString_loop_nonempty.
  by rewrite drop_last_toQueryString_loop.
Qed.

(** *** The params map *)

Lemma lookup_when_ne (c : bool) (update : gmap string string → gmap string string)
    (params : gmap string string) (k : string) :
  (∀ p, update p !! k = p !! k) → when c update params !! k = params !! k.
Proof. intros Hup. destruct c; simpl; [apply Hup|done]. Qed.

Lemma lookup_store_all_ne {K V : Type} (key : K → string) (val : V → string)
    (visit : list (K * V)) (k0 : string) : ∀ params,
  (∀ k, key k ≠ k0) →
  store_all key val visit params !! k0 = params !! k0.
Proof.
  unfold store_all. induction visit as [|kv visit IH]; intros params Hne;
    simpl; [done|].
  rewrite IH by done. by apply lookup_insert_ne.
Qed.

Ltac params_lookup_ne :=
  repeat first
    [ rewrite lookup_when_ne
        by (intros ?; first [ by apply lookup_insert_ne
                            | by apply lookup_store_all_ne ])
    | rewrite lookup_insert_ne by done ].

Lemma ToQueryParams_params_q g f m (q : queryState) :
  ToQueryParams_params g f m q !! "q" = Some (queryString q).
Proof.
  unfold ToQueryParams_params. cbv zeta.
  params_lookup_ne. by rewrite lookup_insert_eq.
Qed.

Lemma ToQueryParams_params_len g f m (q : queryState) :
  ToQueryParams_params g f m q !! "len" = Some (Itoa (length' q)).
Proof.
  unfold ToQueryParams_params. cbv zeta.
  params_lookup_ne. by rewrite lookup_insert_eq.
Qed.

Lemma fst_prod_map_fmap {K V : Type} (key : K → string) (val : V → string)
    (visit : list (K * V)) :
  (prod_map key val <$> visit).*1 = key <$> visit.*1.
Proof.
  rewrite <-!list_fmap_compose. apply list_fmap_ext. by intros ? [??].
Qed.

Lemma store_all_list_to_map {K V : Type} (key : K → string) (val : V → string)
    (visit : list (K * V)) : ∀ params,
  NoDup (key <$> visit.*1) →
  store_all key val visit params
  = list_to_map (prod_map key val <$> visit) ∪ params.
Proof.
  unfold store_all.
  induction visit as [|[k v] visit IH]; intros params Hnd.
  - simpl. by rewrite (left_id_L ∅ (∪)).
  - rewrite !fmap_cons in Hnd. apply NoDup_cons in Hnd as [Hk Hnd].
    cbn [foldl]. rewrite IH by done.
    rewrite fmap_cons. cbn [list_to_map prod_map fst snd uncurry].
    change (list_to_map ((key k, val v) :: ?l)) with (<[key k := val v]> (list_to_map l : gmap string string)).
    rewrite <-insert_union_r, insert_union_l; [done|].
    apply not_elem_of_list_to_map_1. by rewrite fst_prod_map_fmap.
Qed.

(** The entries a loop over a map stores do not depend on the order the
    runtime picks, when distinct keys of the map are stored under
    distinct names. *)
Lemma store_all_range_order {K V : Type} `{Countable K}
    (key : K → string) (val : V → string)
    (m : gmap K V) (visit : list (K * V)) (params : gmap string string) :
  Inj (=) (=) key →
  range_order m visit →
  store_all key val visit params
  = store_all key val (map_to_list m) params.
Proof.
  intros Hinj Hvisit. unfold range_order in Hvisit.
  assert (Hnd : NoDup (key <$> (map_to_list m).*1)).
  { apply (NoDup_fmap_2 _), NoDup_fst_map_to_list. }
  rewrite !store_all_list_to_map; [|done|by rewrite Hvisit].
  f_equal. apply list_to_map_proper; [|by rewrite Hvisit].
  by rewrite fst_prod_map_fmap, Hvisit.
Qed.

Lemma range_order_nonempty (params : gmap string string) visit k v :
  params !! k = Some v → range_order params visit → (k, v) ∈ visit.
Proof.
  intros Hk Hvisit. unfold range_order in Hvisit. rewrite Hvisit.
  by apply elem_of_map_to_list.
Qed.

Lemma ToQueryParams_join g f m q visit :
  range_order (ToQueryParams_params g f m q) visit →
  ToQueryParams g f m q visit = Ret (Join (render <$> visit) "&")
  ∧ ("q", queryString q) ∈ visit
  ∧ ("len", Itoa (length' q)) ∈ visit.
Proof.
  intros Hvisit.
  pose proof (range_order_nonempty _ _ _ _
                (ToQueryParams_params_q g f m q) Hvisit) as Hq.
  pose proof (range_order_nonempty _ _ _ _
                (ToQueryParams_params_len g f m q) Hvisit) as Hlen.
  split; [|done].
  destruct visit as [|kv visit]; [by apply elem_of_nil in Hq|].
  apply toQueryString_Some.
Qed.

(** C4, as the code has it.  On one state, whatever orders the runtime
    picks for the two calls, each call returns the parameters of the
    same params map, every one as [k=escaped(v)], joined by [&] in the
    order its loop visited them: two outputs hold the same parameters
    and may differ in their order only.  Every output holds the
    parameters [q] and [len]. *)
Theorem ToQueryParams_same_parameters g f m (q : queryState) visit1 visit2 :
  range_order (ToQueryParams_params g f m q) visit1 →
  range_order (ToQueryParams_params g f m q) visit2 →
  ToQueryParams g f m q visit1 = Ret (Join (render <$> visit1) "&") ∧
  ToQueryParams g f m q visit2 = Ret (Join (render <$> visit2) "&") ∧
  render <$> visit1 ≡ₚ render <$> visit2 ∧
  ("q", queryString q) ∈ visit1 ∧ ("len", Itoa (length' q)) ∈ visit1 ∧
  ("q", queryString q) ∈ visit2 ∧ ("len", Itoa (length' q)) ∈ visit2.
Proof.
  intros H1 H2.
  destruct (ToQueryParams_join g f m q visit1 H1) as (-> & ? & ?).
  destruct (ToQueryParams_join g f m q visit2 H2) as (-> & ? & ?).
  repeat split; try done.
  unfold range_order in *. by rewrite H1, H2.
Qed.

Lemma QueryForString_params g f m text :
  ToQueryParams_params g f m (QueryForString text)
  = <["len" := "10"]> {["q" := text]}.
Proof. reflexivity. Qed.

Lemma QueryForString_orders g f m text visit :
  range_order (ToQueryParams_params g f m (QueryForString text)) visit ↔
  visit = [("q", text); ("len", "10")] ∨ visit = [("len", "10"); ("q", text)].
Proof.
  rewrite QueryForString_params. unfold range_order.
  assert (Hl : map_to_list (<["len" := "10"]> ({["q" := text]} : gmap string string))
               ≡ₚ [("len", "10"); ("q", text)]).
  { rewrite map_to_list_insert by done. by rewrite map_to_list_singleton. }
  rewrite Hl. split.
  - intros Hp. symmetry in Hp. apply Permutation_length_2_inv in Hp.
    destruct Hp; auto.
  - intros [-> | ->]; [apply perm_swap|done].
Qed.

Lemma ToQueryParams_same_parameters_witness :
  let q := QueryForString "golang" in
  let visit1 := [("q", "golang"); ("len", "10")] in
  let visit2 := [("len", "10"); ("q", "golang")] in
  (∀ g f m, range_order (ToQueryParams_params g f m q) visit1) ∧
  (∀ g f m, range_order (ToQueryParams_params g f m q) visit2) ∧
  (∀ g f m, ToQueryParams g f m q visit1 = Ret "q=golang&len=10") ∧
  (∀ g f m, ToQueryParams g f m q visit2 = Ret "len=10&q=golang").
Proof.
  intros q visit1 visit2.
  assert (H1 : ∀ g f m, range_order (ToQueryParams_params g f m q) visit1).
  { intros g f m. apply QueryForString_orders. by left. }
  assert (H2 : ∀ g f m, range_order (ToQueryParams_params g f m q) visit2).
  { intros g f m. apply QueryForString_orders. by right. }
  split; [exact H1|]. split; [exact H2|].
  split; intros g f m;
    destruct (ToQueryParams_same_parameters g f m q visit1 visit2
                (H1 g f m) (H2 g f m)) as (Hr1 & Hr2 & _).
  - exact Hr1.
  - exact Hr2.
Defined.

(** ToQueryParams on a query with no optional field set can return
    its two parameters in either order. *)
Lemma QueryForString_returns g f m text :
  ∀ s, ToQueryParams_returns g f m (QueryForString text) s ↔
       s = "q=" +:+ QueryEscape text +:+ "&len=10"
       ∨ s = "len=10&q=" +:+ QueryEscape text.
Proof.
  intros s. unfold ToQueryParams_returns. split.
  - intros (visit & Hvisit & Hs).
    apply QueryForString_orders in Hvisit as [-> | ->];
      unfold ToQueryParams in Hs; rewrite toQueryString_Some in Hs;
      inversion Hs; auto.
  - intros [-> | ->].
    + exists [("q", text); ("len", "10")]. split.
      * apply QueryForString_orders. by left.
      * unfold ToQueryParams. by rewrite toQueryString_Some.
    + exists [("len", "10"); ("q", text)]. split.
      * apply QueryForString_orders. by right.
      * unfold ToQueryParams. by rewrite toQueryString_Some.
Qed.

(** C4 as stated fails: one state, two calls, two different strings. *)
Lemma ToQueryParams_two_calls_counterexample :
  (∀ g f m,
     ToQueryParams_returns g f m (QueryForString "golang") "q=golang&len=10")
  ∧ (∀ g f m,
       ToQueryParams_returns g f m (QueryForString "golang") "len=10&q=golang")
  ∧ "q=golang&len=10" ≠ "len=10&q=golang".
Proof.
  split; [|split].
  - intros g f m. apply QueryForString_returns. by left.
  - intros g f m. apply QueryForString_returns. by right.
  - discriminate.
Qed.

(** C5, as the code has it.  A query built by QueryForString with no
    optional setter called has the two parameters [q] and [len] and no
    other (no [start], no [function]); the strings ToQueryParams can
    return on it are [q=<escaped text>&len=10] and
    [len=10&q=<escaped text>]; and the text golang is escaped to itself. *)
Theorem QueryForString_default_serialization g f m (text : string) :
  ToQueryParams_params g f m (QueryForString text)
  = <["len" := "10"]> {["q" := text]}
  ∧ (∀ s, ToQueryParams_returns g f m (QueryForString text) s ↔
          s = "q=" +:+ QueryEscape text +:+ "&len=10"
          ∨ s = "len=10&q=" +:+ QueryEscape text)
  ∧ QueryEscape "golang" = "golang".
Proof.
  split; [apply QueryForString_params|].
  split; [apply QueryForString_returns|reflexivity].
Qed.

(** C5 as stated fails: the default query can also come out as
    [len=10&q=golang], which is not [q=golang&len=10]. *)
Lemma QueryForString_exact_string_counterexample :
  (∀ g f m,
     ToQueryParams_returns g f m (QueryForString "golang") "len=10&q=golang")
  ∧ "len=10&q=golang" ≠ "q=" +:+ QueryEscape "golang" +:+ "&len=10".
Proof.
  split.
  - intros g f m. apply QueryForString_returns. by right.
  - discriminate.
Qed.

(** ** Range filters and query variables in the params map *)

Lemma lookup_store_all_range {K V : Type} `{Countable K}
    (key : K → string) (val : V → string) (m : gmap K V)
    (params : gmap string string) (k : K) :
  Inj (=) (=) key →
  store_all key val (map_to_list m) params !! key k
  = match m !! k with
    | Some v => Some (val v)
    | None => params !! key k
    end.
Proof.
  intros Hinj.
  assert (Hnd : NoDup (key <$> (map_to_list m).*1)).
  { apply (NoDup_fmap_2 _), NoDup_fst_map_to_list. }
  rewrite store_all_list_to_map by done.
  rewrite lookup_union.
  destruct (m !! k) as [v|] eqn:Hk.
  - assert (list_to_map (prod_map key val <$> map_to_list m) !! key k = Some (val v)) as ->.
    { apply elem_of_list_to_map; [by rewrite fst_prod_map_fmap|].
      apply list_elem_of_fmap. exists (k, v). split; [done|].
      by apply elem_of_map_to_list. }
    by destruct (params !! key k).
  - assert (list_to_map (prod_map key val <$> map_to_list m) !! key k = None (A:=string)) as ->.
    { apply not_elem_of_list_to_map_1. rewrite fst_prod_map_fmap.
      intros (k' & Hkk & Hin)%list_elem_of_fmap. apply Hinj in Hkk as <-.
      apply list_elem_of_fmap in Hin as ([k'' v] & -> & Hin).
      apply elem_of_map_to_list in Hin. simpl in Hk. congruence. }
    by rewrite (left_id_L None _).
Qed.

Lemma var_key_inj : Inj (=) (=) (λ k : Z, "var" +:+ Itoa k).
Proof.
  intros k1 k2 Hk. apply (inj (String.app "var")) in Hk.
  by apply (inj pretty) in Hk.
Qed.

Lemma filter_key_inj (prefix : string) :
  Inj (=) (=) (λ k : string, prefix +:+ k).
Proof. apply _. Qed.

Lemma formatRangeParam_step_insert (g : float64 → string) params v :
  formatRangeParam_step g params v
  = <[Itoa (vr_id v) := g (vr_floor v) +:+ ":" +:+ g (vr_ceil v)]> params.
Proof. reflexivity. Qed.

(** Of the ranges given for one variable index, formatRangeParam keeps
    the last. *)
Lemma formatRangeParam_last_wins (FormatFloat_g : float64 → string)
    (ranges : list varRange) (k : Z) :
  formatRangeParam FormatFloat_g ranges !! Itoa k
  = range_text FormatFloat_g <$> last (filter (λ v, vr_id v = k) ranges).
Proof.
  unfold formatRangeParam.
  induction ranges as [|v ranges IH] using rev_ind; [done|].
  rewrite foldl_app. cbn [foldl]. rewrite formatRangeParam_step_insert.
  rewrite filter_app.
  destruct (decide (vr_id v = k)) as [<-|Hne].
  - rewrite lookup_insert_eq.
    rewrite filter_cons_True, filter_nil by done.
    by rewrite last_snoc.
  - rewrite lookup_insert_ne by (intros Heq; by apply (inj pretty) in Heq).
    rewrite filter_cons_False, filter_nil by done.
    by rewrite app_nil_r.
Qed.

Lemma lookup_store_all_formatRangeParam (g : float64 → string)
    (prefix : string) (ranges : list varRange) (params : gmap string string)
    (k : Z) :
  params !! (prefix +:+ Itoa k) = None →
  when (bool_decide (0 < length ranges)%nat)
    (store_all (λ k, prefix +:+ k) id
       (map_to_list (formatRangeParam g ranges))) params
    !! (prefix +:+ Itoa k)
  = range_text g <$> last (filter (λ v, vr_id v = k) ranges).
Proof.
  intros Hnone. destruct ranges as [|v ranges].
  { rewrite bool_decide_eq_false_2 by (simpl; lia). cbn [when].
    by rewrite Hnone. }
  cbn [length]. rewrite bool_decide_eq_true_2 by lia. cbn [when].
  rewrite (lookup_store_all_range (λ k, prefix +:+ k) id
             (formatRangeParam g (v :: ranges)) params (Itoa k)
             (filter_key_inj prefix)).
  rewrite formatRangeParam_last_wins.
  by destruct (last _).
Qed.

(** The parameter [filter_docvar<N>] ([filter_function<N>]) of the
    params map is there exactly when a range filter names index N, and
    its value is the text of the last such range alone. *)
Theorem range_filter_param_last_range
    (FormatFloat_g Sprintf_f : float64 → string)
    (json_Marshal : gmap string (list string) → string)
    (q : queryState) (k : Z) :
  ToQueryParams_params FormatFloat_g Sprintf_f json_Marshal q
    !! ("filter_docvar" +:+ Itoa k)
  = range_text FormatFloat_g
    <$> last (filter (λ v, vr_id v = k) (docvarFilters q))
  ∧ ToQueryParams_params FormatFloat_g Sprintf_f json_Marshal q
      !! ("filter_function" +:+ Itoa k)
    = range_text FormatFloat_g
      <$> last (filter (λ v, vr_id v = k) (functionFilters q)).
Proof.
  unfold ToQueryParams_params. cbv zeta. split.
  - params_lookup_ne.
    apply lookup_store_all_formatRangeParam.
    params_lookup_ne. done.
  - apply lookup_store_all_formatRangeParam.
    params_lookup_ne. done.
Qed.

(** The three loops of ToQueryParams that store into the params map
    store the same entries on every order the runtime can pick. *)
Theorem params_loops_order_irrelevant
    (FormatFloat_g Sprintf_f : float64 → string)
    (vars : gmap Z float64) (ranges : list varRange) (prefix : string)
    (params : gmap string string) :
  (∀ visit, range_order vars visit →
     store_all (λ k, "var" +:+ Itoa k) Sprintf_f visit params
     = store_all (λ k, "var" +:+ Itoa k) Sprintf_f (map_to_list vars) params)
  ∧ (∀ visit, range_order (formatRangeParam FormatFloat_g ranges) visit →
       store_all (λ k, prefix +:+ k) id visit params
       = store_all (λ k, prefix +:+ k) id
           (map_to_list (formatRangeParam FormatFloat_g ranges)) params).
Proof.
  split; intros visit Hvisit.
  - by apply store_all_range_order; [apply var_key_inj|].
  - by apply store_all_range_order; [apply filter_key_inj|].
Qed.

Lemma formatRangeParam_twice (FormatFloat_g : float64 → string)
    (variable : Z) (floor1 ceil1 floor2 ceil2 : float64) :
  formatRangeParam FormatFloat_g
    [mkVarRange variable floor1 ceil1; mkVarRange variable floor2 ceil2]
  = {[ Itoa variable := FormatFloat_g floor2 +:+ ":" +:+ FormatFloat_g ceil2 ]}.
Proof.
  unfold formatRangeParam. simpl. unfold formatRangeParam_step. simpl.
  by rewrite insert_insert_eq.
Qed.

(** C3 (the code misses it).  After two range filters on one variable
    index the params map holds one parameter for that index, and its
    value is the second range alone: the first range is lost, where the
    claim has both ranges joined by a comma.  So for
    DocumentVariableFilter, and so for FunctionFilter. *)
Theorem range_filter_twice_keeps_last
    (FormatFloat_g Sprintf_f : float64 → string)
    (json_Marshal : gmap string (list string) → string)
    (text : string) (variable : Z) (floor1 ceil1 floor2 ceil2 : float64) :
  ToQueryParams_params FormatFloat_g Sprintf_f json_Marshal
    (DocumentVariableFilter variable floor2 ceil2
       (DocumentVariableFilter variable floor1 ceil1 (QueryForString text)))
  = <["filter_docvar" +:+ Itoa variable
        := FormatFloat_g floor2 +:+ ":" +:+ FormatFloat_g ceil2]>
      (<["len" := "10"]> {["q" := text]})
  ∧ ToQueryParams_params FormatFloat_g Sprintf_f json_Marshal
      (FunctionFilter variable floor2 ceil2
         (FunctionFilter variable floor1 ceil1 (QueryForString text)))
    = <["filter_function" +:+ Itoa variable
          := FormatFloat_g floor2 +:+ ":" +:+ FormatFloat_g ceil2]>
        (<["len" := "10"]> {["q" := text]}).
Proof.
  split; unfold ToQueryParams_params;
    cbn [DocumentVariableFilter FunctionFilter QueryForString queryString
         start length' scoringFunction fetchFields snippetFields
         queryVariables fetchCategories fetchVariables docvarFilters
         functionFilters categoryFilters app default];
    rewrite formatRangeParam_twice, map_to_list_singleton;
    reflexivity.
Qed.

(** C6 (the code misses it).  The parameter [var<N>] of the params map
    is there exactly when variable N is set, and its value is what
    [fmt.Sprintf("%f", v)] prints, the fixed-point form with six
    decimals: [strconv.FormatFloat(v, 'g', -1, 64)], the shortest form,
    has no part in it.  So a query with the one variable N set to v has
    the parameters q, len and var<N> = Sprintf("%f", v). *)
Theorem query_variable_fixed_point
    (FormatFloat_g Sprintf_f : float64 → string)
    (json_Marshal : gmap string (list string) → string) :
  (∀ (q : queryState) (k : Z),
     ToQueryParams_params FormatFloat_g Sprintf_f json_Marshal q
       !! ("var" +:+ Itoa k)
     = Sprintf_f <$> default ∅ (queryVariables q) !! k)
  ∧ (∀ (text : string) (variable : Z) (val : float64),
       ∃ q, QueryVariable variable val (QueryForString text) = Ret q ∧
            ToQueryParams_params FormatFloat_g Sprintf_f json_Marshal q
            = <["var" +:+ Itoa variable := Sprintf_f val]>
                (<["len" := "10"]> {["q" := text]})).
Proof.
  split.
  - intros q k. unfold ToQueryParams_params. cbv zeta.
    params_lookup_ne.
    set (vars := default ∅ (queryVariables q)).
    destruct (bool_decide (0 < size vars)%nat) eqn:Hsize; simpl.
    + rewrite (lookup_store_all_range (λ k, "var" +:+ Itoa k) Sprintf_f
                 vars _ k var_key_inj).
      destruct (vars !! k); [done|]. simpl.
      params_lookup_ne. done.
    + apply bool_decide_eq_false in Hsize.
      assert (vars = ∅) as -> by (apply map_size_empty_iff; lia).
      rewrite lookup_empty. simpl. params_lookup_ne. done.
  - intros text variable val. eexists. split; [reflexivity|].
    unfold ToQueryParams_params.
    cbn [set_queryVariables QueryForString queryString
         start length' scoringFunction fetchFields snippetFields
         queryVariables fetchCategories fetchVariables docvarFilters
         functionFilters categoryFilters default id].
    rewrite insert_empty, map_size_singleton, map_to_list_singleton.
    reflexivity.
Qed.

(** ** Setting query variables *)

(** C9, as the code has it.  QueryVariable upserts on the builder's
    map when that map is not nil: the index it names gets the value and
    every other index keeps what it had; on a nil map it panics.
    QueryVariables replaces the builder's map by its argument, nil
    included: what was set before is gone.  The map is not nil after
    QueryForString and after QueryVariables with a map, where
    QueryVariable upserts on that map; it is nil after QueryVariables
    with nil, where QueryVariable panics. *)
Theorem query_variables_set_and_replace (q : queryState) (k : Z)
    (v : float64) (m : option (gmap Z float64)) :
  match queryVariables q with
  | Some vars =>
      ∃ q' vars', QueryVariable k v q = Ret q' ∧
        queryVariables q' = Some vars' ∧
        vars' !! k = Some v ∧
        ∀ j, j ≠ k → vars' !! j = vars !! j
  | None => QueryVariable k v q = Panic NilMapAssignment
  end
  ∧ queryVariables (QueryVariables m q) = m
  ∧ (∀ s, queryVariables (QueryForString s) = Some ∅)
  ∧ QueryVariable k v (QueryVariables None q) = Panic NilMapAssignment
  ∧ (∀ vars, ∃ q',
       QueryVariable k v (QueryVariables (Some vars) q) = Ret q' ∧
       queryVariables q' = Some (<[k := v]> vars)).
Proof.
  split; [|split; [done|split; [done|split; [done|]]]].
  - unfold QueryVariable.
    destruct (queryVariables q) as [vars|]; [|done].
    eexists _, _. split; [reflexivity|]. split; [reflexivity|].
    split; [apply lookup_insert_eq|].
    intros j Hj. by apply lookup_insert_ne.
  - intros vars. by eexists.
Qed.

(** C9 as stated fails: a variable set at index 0 is gone once
    QueryVariables sets index 1. *)
Lemma QueryVariables_replaces_counterexample :
  ∃ q1,
    QueryVariable 0 float_one (QueryForString "golang") = Ret q1 ∧
    queryVariables q1 = Some {[0 := float_one]} ∧
    ∃ vars,
      queryVariables (QueryVariables (Some {[1 := float_two]}) q1)
      = Some vars ∧
      vars !! 1 = Some float_two ∧ vars !! 0 = None.
Proof.
  eexists. split; [reflexivity|]. split; [reflexivity|].
  eexists. split; [reflexivity|]. split; reflexivity.
Qed.

(** ** Status interpretation *)

Lemma range_order_singleton (k v : string) (visit : list (string * string)) :
  range_order ({[k := v]} : gmap string string) visit ↔ visit = [(k, v)].
Proof.
  unfold range_order. rewrite map_to_list_singleton. split.
  - apply Permutation_singleton_r.
  - by intros ->.
Qed.

(** toQueryString on a map that is empty and not nil: the slice
    [s[0:len(s)-1]] of the empty string panics. *)
Theorem toQueryString_empty_map_panics :
  toQueryString (Some ∅) [] = Panic SliceOutOfRange
  ∧ range_order (∅ : gmap string string) [].
Proof. split; [reflexivity|]. unfold range_order. by rewrite map_to_list_empty. Qed.

(** When the transport fails, the request helper dereferences the nil
    response in its [defer] and panics; so do its callers. *)
Theorem helper_panics_on_transport_failure
    (Unmarshal_any : string → jsonValue * option error) (client : IndexClient)
    (account : indexTankClient) (err : error) :
  refreshMetadata Unmarshal_any client (Failed err) = Panic NilDereference ∧
  Exists Unmarshal_any client (Failed err) = Panic NilDereference ∧
  ListIndexes Unmarshal_any account (Failed err) = Panic NilDereference.
Proof. repeat split. Qed.

(** C10.  On a response with status 204 the request helper returns the
    error [Index Already Exists 204] and no value; so do the calls that
    go through it: the metadata refresh and fetch, the simple Search and
    ListIndexes; and Exists returns false. *)
Theorem helper_204_is_already_exists
    (Unmarshal_any : string → jsonValue * option error)
    (client : IndexClient) (account : indexTankClient) (q : string)
    (status body : string) (readerr : option error) :
  let reply := Replied (mkResponse 204 status body readerr) in
  let err := errors_New "Index Already Exists 204" in
  doRequest Unmarshal_any None [] reply = Ret (None, Some err) ∧
  refreshMetadata Unmarshal_any client reply = Ret (None, Some err) ∧
  Exists Unmarshal_any client reply = Ret false ∧
  (∀ visit, range_order ({["q" := q]} : gmap string string) visit →
     Search Unmarshal_any client q visit reply = Ret (None, Some err)) ∧
  ListIndexes Unmarshal_any account reply = Ret (None, Some err) ∧
  (metadata client = None →
   GetMetadata Unmarshal_any client reply
   = Ret (mkIndexClient (url client) None, (None, Some err))).
Proof.
  intros reply err. repeat split; try reflexivity.
  - intros visit ->%range_order_singleton.
    unfold Search, doRequest. by rewrite toQueryString_Some.
  - intros Hnone. unfold GetMetadata. by rewrite Hnone.
Qed.

(** C7 (the code misses the first part).  CreateIndexWithOptions, and
    CreateIndex with it, reads the status of the PUT so: 204 is the
    error [Index already exists], 409 the error [Maximum indexes limit
    reached for this account], every status other than 201, 204 and 409
    the error that carries the status code and the status line.  On 201
    it fetches the metadata and returns no error when that fetch
    returns, whatever the fetch returns; when the fetch panics, as it
    does on a client with no metadata when the transport fails, the
    call panics where the claim has success. *)
Theorem CreateIndex_status_interpretation
    (Unmarshal_any : string → jsonValue * option error)
    (client : IndexClient) (options : option (gmap string jsonValue))
    (code : Z) (status body : string) (readerr : option error)
    (meta_reply : sent) (transport_err : error) :
  let create c := CreateIndexWithOptions Unmarshal_any client options
                    (Replied (mkResponse c status body readerr)) in
  (∀ r, GetMetadata Unmarshal_any client meta_reply = Ret r →
        create 201 meta_reply = Ret (r.1, None)) ∧
  (metadata client = None →
   create 201 (Failed transport_err) = Panic NilDereference) ∧
  create 204 meta_reply
  = Ret (client, Some (errors_New "Index already exists")) ∧
  create 409 meta_reply
  = Ret (client, Some (errors_New
           "Maximum indexes limit reached for this account")) ∧
  (code ≠ 201 → code ≠ 204 → code ≠ 409 →
   create code meta_reply
   = Ret (client, Some (errors_New
            ("Unexpected error, HTTP status " +:+ Itoa code +:+ ": "
             +:+ status)))) ∧
  CreateIndex Unmarshal_any client
    (Replied (mkResponse code status body readerr)) meta_reply
  = create code meta_reply.
Proof.
  intros create. unfold create, CreateIndex, CreateIndexWithOptions.
  cbn [StatusCode Status]. repeat split; try reflexivity.
  - intros r Hr. rewrite decide_True by done. by rewrite Hr.
  - intros Hnone. rewrite decide_True by done.
    unfold GetMetadata. by rewrite Hnone.
  - intros H201 H204 H409. by rewrite !decide_False by done.
Qed.

(** C8, as the code has it.  What the seven mutation calls make of a
    response [resp]: which statuses are success (every 2xx status, but
    200 alone for DeleteDocuments, which takes every other status but
    404 for a failure), when the body is the error text (on a 400 with a
    body, for the calls that read it; AddFunction only when the body was
    read without error), what a 400 with an empty body gives, when the
    error is [Index does not exist], and what the error is otherwise. *)
Theorem mutation_status_interpretation
    (Unmarshal_addResults : string → error + list addResult)
    (Unmarshal_deleteResults : string → error + list deleteResult)
    (client : IndexClient) (resp : Response)
    (documentId definition : string) (fields : gmap string string)
    (variables : option (gmap Z float32))
    (categories : option (gmap string string))
    (documents : list Document) (documentIds : list string)
    (functionIndex : Z) :
  let reply := Replied resp in
  let addDocument :=
    AddDocument client documentId fields variables categories reply in
  let addDocuments :=
    AddDocuments Unmarshal_addResults client documents reply in
  let updateVariables :=
    UpdateVariables client documentId variables reply in
  let deleteDocument := DeleteDocument client documentId reply in
  let deleteDocuments :=
    DeleteDocuments Unmarshal_deleteResults client documentIds reply in
  let addFunction := AddFunction client functionIndex definition reply in
  let deleteFunction := DeleteFunction client functionIndex reply in
  (* success: every 2xx status, but 200 alone for DeleteDocuments *)
  (isOk (StatusCode resp) = true →
   addDocument = None ∧ updateVariables = None ∧ deleteDocument = None ∧
   addFunction = None ∧ deleteFunction = None ∧
   ∀ r, Unmarshal_addResults (Body resp) = inr r →
        length documents = length r →
        ∃ bd, addDocuments = Ret (Some bd, None)) ∧
  (StatusCode resp = 200 →
   ∀ r, Unmarshal_deleteResults (Body resp) = inr r →
        length documentIds = length r →
        ∃ bd, deleteDocuments = Ret (Some bd, None)) ∧
  (* DeleteDocuments: every status but 200 and 404, the other 2xx
     statuses included, is the failure that carries code and reason *)
  (StatusCode resp ≠ 200 → StatusCode resp ≠ 404 →
   deleteDocuments = Ret (None, Some (unexpected_status resp))) ∧
  (* 400 with a body: the body is the error of the calls that read it;
     AddFunction has the body only when it was read without error *)
  (StatusCode resp = 400 → Body resp ≠ "" →
   addDocument = Some (errors_New (Body resp)) ∧
   addDocuments = Ret (None, Some (errors_New (Body resp))) ∧
   updateVariables = Some (errors_New (Body resp)) ∧
   (ReadErr resp = None → addFunction = Some (errors_New (Body resp))) ∧
   (ReadErr resp ≠ None → addFunction = Some (unexpected_status resp)) ∧
   deleteFunction = Some (errors_New (Status resp)) ∧
   deleteDocument = Some (unexpected_status resp) ∧
   deleteDocuments = Ret (None, Some (unexpected_status resp))) ∧
  (* 400 with an empty body *)
  (StatusCode resp = 400 → Body resp = "" →
   addDocument = Some (errors_New "Unexpected error adding document") ∧
   addDocuments
   = Ret (None, Some (errors_New "Unexpected error adding documents batch")) ∧
   updateVariables = Some (errors_New "Unexpected error updating variables") ∧
   addFunction = Some (unexpected_status resp) ∧
   deleteFunction = Some (errors_New (Status resp)) ∧
   deleteDocument = Some (unexpected_status resp) ∧
   deleteDocuments = Ret (None, Some (unexpected_status resp))) ∧
  (* 404: the two delete calls tell it apart *)
  (StatusCode resp = 404 →
   deleteDocument = Some (errors_New "Index does not exist") ∧
   deleteDocuments = Ret (None, Some (errors_New "Index does not exist")) ∧
   addDocument = Some (errors_New "Unexpected error adding document") ∧
   addDocuments
   = Ret (None, Some (errors_New "Unexpected error adding documents batch")) ∧
   updateVariables = Some (errors_New "Unexpected error updating variables") ∧
   addFunction = Some (unexpected_status resp) ∧
   deleteFunction = Some (unexpected_status resp)) ∧
  (* any other status *)
  (isOk (StatusCode resp) = false →
   StatusCode resp ≠ 400 → StatusCode resp ≠ 404 →
   addDocument = Some (errors_New "Unexpected error adding document") ∧
   addDocuments
   = Ret (None, Some (errors_New "Unexpected error adding documents batch")) ∧
   updateVariables = Some (errors_New "Unexpected error updating variables") ∧
   deleteDocument = Some (unexpected_status resp) ∧
   deleteDocuments = Ret (None, Some (unexpected_status resp)) ∧
   addFunction = Some (unexpected_status resp) ∧
   deleteFunction = Some (unexpected_status resp)).
Proof.
  intros reply addDocument addDocuments updateVariables deleteDocument
    deleteDocuments addFunction deleteFunction.
  unfold addDocument, addDocuments, updateVariables, deleteDocument,
    deleteDocuments, addFunction, deleteFunction, reply,
    AddDocument, AddDocuments, UpdateVariables, DeleteDocument,
    DeleteDocuments, AddFunction, DeleteFunction.
  split; [|split; [|split; [|split; [|split; [|split]]]]].
  - intros Hok. rewrite Hok. repeat split.
    intros r Hr Hlen. rewrite Hr.
    destruct (decide _) as [Hne|_]; [congruence|].
    destruct (batch_results_answer_exists documents r Hlen) as [bd ->].
    by exists bd.
  - intros H200 r Hr Hlen. rewrite decide_True by done. rewrite Hr.
    destruct (bulk_results_answer_exists documentIds r Hlen) as [bd ->].
    by exists bd.
  - intros H200 H404. by rewrite !decide_False by done.
  - intros H400 Hbody. rewrite H400.
    assert (isOk 400 = false) as -> by reflexivity.
    unfold readResponseBody.
    repeat split; try intros Hread;
      destruct (ReadErr resp) eqn:?; simpl;
      repeat destruct (decide _); intuition congruence.
  - intros H400 Hbody. rewrite H400.
    assert (isOk 400 = false) as -> by reflexivity.
    unfold readResponseBody.
    repeat split; destruct (ReadErr resp) eqn:?; simpl;
      repeat destruct (decide _); intuition congruence.
  - intros H404. rewrite H404.
    assert (isOk 404 = false) as -> by reflexivity.
    repeat split; repeat destruct (decide _); intuition congruence.
  - intros Hok H400 H404. rewrite Hok.
    assert (StatusCode resp ≠ 200) as H200.
    { intros H200. by rewrite H200 in Hok. }
    repeat split; repeat destruct (decide _); intuition congruence.
Qed.

(** C8 as stated fails: AddDocument does not tell a 404 apart,
    DeleteDocument does not read the body of a 400, and DeleteDocuments
    takes a 2xx status other than 200 for a failure. *)
Lemma mutation_status_counterexample :
  let client := mkIndexClient "http://api/v1/indexes/idx" None in
  AddDocument client "doc1" ∅ None None
    (Replied (mkResponse 404 "404 Not Found" "" None))
  = Some (errors_New "Unexpected error adding document")
  ∧ DeleteDocument client "doc1"
      (Replied (mkResponse 400 "400 Bad Request" "Invalid docid" None))
    = Some (errors_New "Unexpected 400 error: 400 Bad Request")
  ∧ (∀ Unmarshal_deleteResults,
       DeleteDocuments Unmarshal_deleteResults client ["doc1"]
         (Replied (mkResponse 201 "201 Created" "[]" None))
       = Ret (None, Some (errors_New "Unexpected 201 error: 201 Created"))).
Proof. repeat split. Qed.

(** * Further properties of the code *)

#[local] Set Warnings "-clear-no-such-hyp".

(** ** Statuses and the request helper *)

(** isOk takes exactly the statuses 200 to 299: Go's integer division
    rounds towards zero, and no status outside that range divides to 2. *)
Theorem isOk_exactly_2xx (status : Z) :
  isOk status = true ↔ 200 ≤ status ≤ 299.
Proof.
  unfold isOk. rewrite bool_decide_eq_true.
  split; intros H; Z.to_euclidean_division_equations; lia.
Qed.

(** Goals that read an outcome of the code back: cases on what was
    returned, and arithmetic on the status. *)
Ltac outcome_cases :=
  repeat match goal with
  | |- _ ∧ _ => split
  | |- _ ↔ _ => split
  | |- ∀ _, _ => intro
  | |- ¬ _ => intro
  | H : _ ∧ _ |- _ => destruct H
  | H : ∃ _, _ |- _ => destruct H
  end;
  simplify_eq; try done; try lia; try congruence; eauto;
  try match goal with
      | H : ∀ _, _ ≠ _ |- _ => by (exfalso; eapply H)
      end.

(** The same for one direction of an equivalence, with the cases of
    what is assumed. *)
Ltac read_back :=
  repeat match goal with
         | H : ∃ _, _ |- _ => destruct H
         | H : _ ∧ _ |- _ => destruct H
         | H : _ ∨ _ |- _ => destruct H
         end;
  simplify_eq; try done; try lia; try congruence;
  try (by eauto 10 with lia);
  try match goal with
      | H : ∀ _, _ ≠ _ |- _ => by (exfalso; eapply H)
      end.

(** What the request helper makes of a response, on a call with no
    parameters.  It returns a value exactly when the status is below 400
    and not 204, the body is not empty and the decoder has stored a JSON
    object; the error beside the value is the decoder's, so a value can
    come with an error.  It returns neither value nor error exactly when
    such a status comes with an empty body read without error.  It
    returns an error and no value exactly on a 404, on a 204, on a
    status of 400 and above, and when an empty body comes with a read
    error.  It panics exactly when, on a status it reads, the body is
    not empty and the decoder has stored no object. *)
Theorem doRequest_outcomes
    (Unmarshal_any : string → jsonValue * option error) (resp : Response) :
  let run := doRequest Unmarshal_any None [] (Replied resp) in
  let read := StatusCode resp < 400 ∧ StatusCode resp ≠ 204 in
  let decoded := Unmarshal_any (Body resp) in
  (∀ m e, run = Ret (Some m, e) ↔
          read ∧ Body resp ≠ "" ∧ decoded = (JObject m, e)) ∧
  (run = Ret (None, None) ↔ read ∧ Body resp = "" ∧ ReadErr resp = None) ∧
  (∀ e, run = Ret (None, Some e) ↔
        (StatusCode resp = 404 ∧ e = errors_New "Index does not exist") ∨
        (StatusCode resp = 204
         ∧ e = errors_New
                 ("Index Already Exists " +:+ Itoa (StatusCode resp))) ∨
        (400 ≤ StatusCode resp ∧ StatusCode resp ≠ 404
         ∧ e = errors_New ("HTTP response " +:+ Itoa (StatusCode resp))) ∨
        (read ∧ Body resp = "" ∧ ReadErr resp = Some e)) ∧
  ((∃ p, run = Panic p) ↔
   read ∧ Body resp ≠ "" ∧ ∀ m, decoded.1 ≠ JObject m).
Proof.
  intros run read decoded.
  unfold run, read, decoded, doRequest, doRequest_read. simpl.
  repeat destruct (decide _);
    try destruct (Unmarshal_any (Body resp)) as [[] ?] eqn:?; simpl;
    (split; [|split; [|split]]);
    try (intros; split; intros); read_back.
Qed.

Lemma isOk_spec (status : Z) : isOk status = true ↔ 200 ≤ status ≤ 299.
Proof.
  unfold isOk. rewrite bool_decide_eq_true.
  split; intros H; Z.to_euclidean_division_equations; lia.
Qed.

(** Exists answers true exactly when the status is below 400 and not
    204 and the body is either empty and read without error, or decodes
    to a JSON object without error: an empty 200 counts as an index that
    exists. *)
Theorem Exists_true_exactly
    (Unmarshal_any : string → jsonValue * option error)
    (client : IndexClient) (resp : Response) :
  Exists Unmarshal_any client (Replied resp) = Ret true ↔
  StatusCode resp < 400 ∧ StatusCode resp ≠ 204 ∧
  ((Body resp = "" ∧ ReadErr resp = None) ∨
   (Body resp ≠ "" ∧ ∃ m, Unmarshal_any (Body resp) = (JObject m, None))).
Proof.
  unfold Exists, refreshMetadata, doRequest, doRequest_read. simpl.
  repeat destruct (decide _);
    try destruct (Unmarshal_any (Body resp)) as [[] []] eqn:?;
    try destruct (ReadErr resp) eqn:?; simpl;
    (split; intros); read_back.
Qed.

(** GetMetadata keeps what it fetched: once a call has returned
    metadata, every later call on the handle returns that same metadata
    and no error whatever the transport would answer, and leaves the
    handle as it is; a call that returned no metadata leaves the handle
    with none, so the next call fetches again. *)
Theorem GetMetadata_caches
    (Unmarshal_any : string → jsonValue * option error)
    (client c : IndexClient) (reply later : sent)
    (md : option (gmap string jsonValue)) (err : option error) :
  GetMetadata Unmarshal_any client reply = Ret (c, (md, err)) →
  url c = url client ∧ metadata c = md ∧
  match md with
  | Some m => GetMetadata Unmarshal_any c later = Ret (c, (Some m, None))
  | None =>
      GetMetadata Unmarshal_any c later
      = r ← refreshMetadata Unmarshal_any c later;
        Ret (mkIndexClient (url c) r.1, (r.1, r.2))
  end.
Proof.
  unfold GetMetadata at 1.
  destruct (metadata client) as [m|] eqn:Hmeta.
  - intros [= <- <- <-]. split; [done|]. split; [done|].
    unfold GetMetadata. by rewrite Hmeta.
  - destruct (refreshMetadata Unmarshal_any client reply) as [[md' err']|];
      simpl; [|done].
    intros [= <- <- <-]. simpl. split; [done|]. split; [done|].
    destruct md' as [m|]; unfold GetMetadata; simpl; done.
Qed.

Lemma GetMetadata_caches_witness :
  let U := λ _ : string, (JObject ∅, None) : jsonValue * option error in
  let client := mkIndexClient "http://api/v1/indexes/idx" None in
  let c := mkIndexClient "http://api/v1/indexes/idx" (Some ∅) in
  GetMetadata U client (Replied (mkResponse 200 "200 OK" "{}" None))
  = Ret (c, (Some ∅, None)) ∧
  GetMetadata U c (Failed (errors_New "connection refused"))
  = Ret (c, (Some ∅, None)).
Proof.
  intros U client c. split; [reflexivity|].
  exact (proj2 (proj2 (GetMetadata_caches U client c
    (Replied (mkResponse 200 "200 OK" "{}" None))
    (Failed (errors_New "connection refused")) (Some ∅) None eq_refl))).
Defined.



(** UpdateIndex makes one error of its own, [Index does not exist] on
    a 404.  On a status of 200 to 299 the handle's metadata becomes what
    the refresh returns, the refresh's error is dropped and the call
    returns no error; when the refresh panics the call panics.  On every
    other status the handle stays as it was and the call returns the
    error [request] returned beside the response: none when the request
    was answered without one, so that a 500 comes back as no error.
    When [request] returns a nil response the call panics. *)
Theorem UpdateIndex_outcomes
    (Unmarshal_any : string → jsonValue * option error)
    (client : IndexClient) (options : option (gmap string jsonValue))
    (resp : Response) (err : option error) (meta_reply : sent) :
  let run := UpdateIndex Unmarshal_any client options (Some resp) err
               meta_reply in
  (StatusCode resp = 404 →
   run = Ret (client, Some (errors_New "Index does not exist"))) ∧
  (¬ 200 ≤ StatusCode resp ≤ 299 → StatusCode resp ≠ 404 →
   run = Ret (client, err)) ∧
  (200 ≤ StatusCode resp ≤ 299 →
   (∀ r, refreshMetadata Unmarshal_any client meta_reply = Ret r →
         run = Ret (mkIndexClient (url client) r.1, None)) ∧
   (∀ p, refreshMetadata Unmarshal_any client meta_reply = Panic p →
         run = Panic p)) ∧
  (∀ c e, run = Ret (c, Some e) ↔
          c = client ∧
          ((StatusCode resp = 404 ∧ e = errors_New "Index does not exist") ∨
           (¬ 200 ≤ StatusCode resp ≤ 299 ∧ StatusCode resp ≠ 404
            ∧ err = Some e))) ∧
  UpdateIndex Unmarshal_any client options None err meta_reply
  = Panic NilDereference.
Proof.
  intros run. unfold run, UpdateIndex.
  destruct (isOk (StatusCode resp)) eqn:Hok.
  - apply isOk_spec in Hok.
    destruct (refreshMetadata Unmarshal_any client meta_reply) as [r|p];
      simpl; split_and!; try (intros; split; intros); read_back.
  - assert (¬ 200 ≤ StatusCode resp ≤ 299) as Hnot.
    { rewrite <-isOk_spec. by rewrite Hok. }
    destruct (decide _);
      split_and!; try (intros; split; intros); read_back.
Qed.

(** ** Listing the indexes *)

Lemma mapM_go_Ret {A B : Type} (f : A → go B) (g : A → B) (l : list A) :
  (∀ x, x ∈ l → f x = Ret (g x)) → mapM f l = Ret (g <$> l).
Proof.
  induction l as [|x l IH]; intros Hf; [done|].
  simpl. rewrite (Hf x) by left. simpl.
  rewrite IH by (intros y Hy; apply Hf; by right). done.
Qed.

Lemma mapM_go_Panic {A B : Type} (f : A → go B) (p : panic) (l : list A) :
  (∀ x p', f x = Panic p' → p' = p) →
  (∃ x, x ∈ l ∧ f x = Panic p) → mapM f l = Panic p.
Proof.
  intros Hp. induction l as [|x l IH]; intros (y & Hy & Hfy).
  - by apply elem_of_nil in Hy.
  - simpl. destruct (f x) as [b|p'] eqn:Hfx; simpl.
    + apply elem_of_cons in Hy as [->|Hy]; [congruence|].
      rewrite IH by eauto. done.
    + by rewrite (Hp x p' Hfx).
Qed.

Lemma makeIndexUrl_append (apiUrl0 k : string) :
  makeIndexUrl apiUrl0 "" +:+ k = makeIndexUrl apiUrl0 k.
Proof.
  unfold makeIndexUrl. by rewrite append_nil_r, append_assoc.
Qed.

(** On a listing that decodes to a JSON object whose values are all
    objects, ListIndexes returns one handle per name of the listing and
    no other: the handle for a name has the URL GetIndex gives for that
    name, and holds the metadata the listing has for it. *)
Theorem ListIndexes_handles
    (Unmarshal_any : string → jsonValue * option error)
    (account : indexTankClient) (resp : Response)
    (m : gmap string jsonValue) :
  StatusCode resp < 400 → StatusCode resp ≠ 204 → Body resp ≠ "" →
  Unmarshal_any (Body resp) = (JObject m, None) →
  (∀ k v, m !! k = Some v → ∃ o, v = JObject o) →
  ∃ indexes,
    ListIndexes Unmarshal_any account (Replied resp)
    = Ret (Some indexes, None) ∧
    ∀ k, indexes !! k
         = (λ v, mkIndexClient (url (GetIndex account k)) (as_object v))
           <$> m !! k.
Proof.
  intros Hlt H204 Hbody Hm Hobj.
  unfold ListIndexes, doRequest, doRequest_read. simpl.
  rewrite !decide_False by lia. rewrite decide_False by done.
  rewrite Hm. simpl.
  set (uri := makeIndexUrl (apiUrl account) "").
  set (h := λ kv : string * jsonValue,
              (kv.1, mkIndexClient (uri +:+ kv.1) (as_object kv.2))).
  rewrite (mapM_go_Ret _ h).
  2:{ intros [k v] Hkv%elem_of_map_to_list.
      destruct (Hobj k v Hkv) as [o ->]. done. }
  simpl. eexists. split; [reflexivity|]. intros k.
  assert (Hfst : (h <$> map_to_list m).*1 = (map_to_list m).*1).
  { rewrite <-list_fmap_compose. by apply list_fmap_ext. }
  destruct (m !! k) as [v|] eqn:Hk; simpl.
  - apply elem_of_list_to_map_1.
    + rewrite Hfst. apply NoDup_fst_map_to_list.
    + apply list_elem_of_fmap. exists (k, v). split.
      * unfold h, uri. simpl. by rewrite makeIndexUrl_append.
      * by apply elem_of_map_to_list.
  - apply not_elem_of_list_to_map_1. rewrite Hfst.
    intros ([k' v] & -> & Hin%elem_of_map_to_list)%list_elem_of_fmap.
    simpl in Hk. congruence.
Qed.

Lemma ListIndexes_handles_witness :
  let listing : gmap string jsonValue := {["idx" := JObject ∅]} in
  let U := λ _ : string,
    (JObject listing, None) : jsonValue * option error in
  ∃ indexes,
    ListIndexes U (mkIndexTankClient "http://api")
      (Replied (mkResponse 200 "200 OK" "listing" None))
    = Ret (Some indexes, None) ∧
    indexes !! "idx"
    = Some (mkIndexClient "http://api/v1/indexes/idx" (Some ∅)).
Proof.
  intros listing U.
  destruct (ListIndexes_handles U (mkIndexTankClient "http://api")
              (mkResponse 200 "200 OK" "listing" None) listing)
    as (indexes & Hrun & Hlookup); [simpl; lia|done|done|done| |].
  { intros k v [_ <-]%lookup_singleton_Some. by eexists. }
  exists indexes. split; [exact Hrun|].
  rewrite Hlookup. reflexivity.
Defined.

(** The edges of ListIndexes on a status it reads: an empty body is an
    empty listing and no error; a listing with a value that is not an
    object makes the call panic. *)
Theorem ListIndexes_edges
    (Unmarshal_any : string → jsonValue * option error)
    (account : indexTankClient) (resp : Response)
    (m : gmap string jsonValue) :
  StatusCode resp < 400 → StatusCode resp ≠ 204 →
  (Body resp = "" → ReadErr resp = None →
   ListIndexes Unmarshal_any account (Replied resp) = Ret (Some ∅, None)) ∧
  (Body resp ≠ "" → Unmarshal_any (Body resp) = (JObject m, None) →
   (∃ k v, m !! k = Some v ∧ as_object v = None) →
   ListIndexes Unmarshal_any account (Replied resp) = Panic TypeAssertion).
Proof.
  intros Hlt H204. split.
  - intros Hbody Hread.
    unfold ListIndexes, doRequest, doRequest_read. simpl.
    rewrite !decide_False by lia. rewrite decide_True by done.
    rewrite Hread. simpl. by rewrite map_to_list_empty.
  - intros Hbody Hm (k & v & Hk & Hv).
    unfold ListIndexes, doRequest, doRequest_read. simpl.
    rewrite !decide_False by lia. rewrite decide_False by done.
    rewrite Hm. simpl.
    rewrite (mapM_go_Panic _ TypeAssertion); [done| |].
    + intros [k' v'] p'. unfold ListIndexes_entry. simpl.
      destruct v'; congruence.
    + exists (k, v). split; [by apply elem_of_map_to_list|].
      unfold ListIndexes_entry. simpl. by destruct v.
Qed.

Lemma ListIndexes_edges_witness :
  ListIndexes (λ _, (JNull, None)) (mkIndexTankClient "http://api")
    (Replied (mkResponse 200 "200 OK" "" None))
  = Ret (Some ∅, None).
Proof.
  destruct (ListIndexes_edges (λ _, (JNull, None))
              (mkIndexTankClient "http://api")
              (mkResponse 200 "200 OK" "" None) ∅)
    as [Hempty _]; [simpl; lia|done|].
  exact (Hempty eq_refl eq_refl).
Defined.

(** ** Documents and category filters *)

Lemma foldl_insert_list_to_map {K V K' V' : Type} `{Countable K'}
    (key : K → K') (val : V → V') (visit : list (K * V)) : ∀ acc : gmap K' V',
  NoDup (key <$> visit.*1) →
  foldl (λ p kv, <[key kv.1 := val kv.2]> p) acc visit
  = list_to_map (prod_map key val <$> visit) ∪ acc.
Proof.
  induction visit as [|[k v] visit IH]; intros acc Hnd.
  - simpl. by rewrite (left_id_L ∅ (∪)).
  - rewrite !fmap_cons in Hnd. apply NoDup_cons in Hnd as [Hk Hnd].
    cbn [foldl]. rewrite IH by done.
    rewrite fmap_cons. cbn [prod_map fst snd].
    change (list_to_map ((key k, val v) :: ?l))
      with (<[key k := val v]> (list_to_map l : gmap K' V')).
    rewrite <-insert_union_r, insert_union_l; [done|].
    apply not_elem_of_list_to_map_1.
    rewrite <-list_fmap_compose.
    rewrite <-list_fmap_compose in Hk.
    by rewrite (list_fmap_ext _ (key ∘ fst) visit) by (by intros ? [??]).
Qed.

Global Instance Itoa_inj : Inj (=) (=) Itoa.
Proof. unfold Itoa. apply _. Qed.

Lemma string_keys_kmap (variables : gmap Z float32) (visit : list (Z * float32)) :
  range_order variables visit → string_keys visit = kmap Itoa variables.
Proof.
  intros Hvisit. unfold range_order in Hvisit. unfold string_keys.
  assert (Hnd : NoDup (Itoa <$> visit.*1)).
  { rewrite Hvisit. apply (NoDup_fmap_2 _), NoDup_fst_map_to_list. }
  rewrite (foldl_insert_list_to_map Itoa id visit ∅ Hnd).
  rewrite (right_id_L ∅ (∪)). unfold kmap.
  apply list_to_map_proper.
  - rewrite <-list_fmap_compose.
    rewrite (list_fmap_ext _ (Itoa ∘ fst) visit) by (by intros ? [??]).
    by rewrite list_fmap_compose.
  - by rewrite Hvisit.
Qed.

(** NewDocument never returns an error and keeps the id, the fields
    and the categories; its variables are the given ones under the
    decimal form of their index: every index is found under its decimal
    form with its value, nothing else is in the map, no two indices fall
    on one key, and the order of the loop does not matter. *)
Theorem NewDocument_string_keys (docid : string) (fields : gmap string string)
    (variables : option (gmap Z float32)) (categories : gmap string string) :
  let doc := (NewDocument docid fields variables categories).1 in
  let vars := default ∅ variables in
  (NewDocument docid fields variables categories).2 = None ∧
  Id doc = docid ∧ Fields doc = fields ∧ Categories doc = categories ∧
  (∀ k, Variables doc !! Itoa k = vars !! k) ∧
  (∀ s v, Variables doc !! s = Some v → ∃ k, s = Itoa k ∧ vars !! k = Some v) ∧
  size (Variables doc) = size vars ∧
  (∀ visit, range_order vars visit → string_keys visit = Variables doc).
Proof.
  intros doc vars. unfold doc, NewDocument. simpl. fold vars.
  assert (Hk : string_keys (map_to_list vars) = kmap Itoa vars).
  { apply string_keys_kmap. by unfold range_order. }
  rewrite Hk. repeat split.
  - intros k. apply (lookup_kmap Itoa).
  - intros s v Hs. by apply (lookup_kmap_Some Itoa) in Hs.
  - unfold kmap. rewrite map_size_list_to_map.
    + by rewrite length_fmap, length_map_to_list.
    + rewrite <-list_fmap_compose.
      rewrite (list_fmap_ext _ (Itoa ∘ fst) (map_to_list vars))
        by (by intros ? [??]).
      rewrite list_fmap_compose.
      apply (NoDup_fmap_2 _), NoDup_fst_map_to_list.
  - intros visit Hvisit. by apply string_keys_kmap.
Qed.

Lemma map_fold_insert_union {V : Type} (filters old : gmap string V) :
  map_fold (λ k v acc, <[k := v]> acc) old filters = filters ∪ old.
Proof.
  apply (map_fold_weak_ind (λ r m, r = m ∪ old)).
  - by rewrite (left_id_L ∅ (∪)).
  - intros k v m r Hk ->. by rewrite insert_union_l.
Qed.

(** CategoryFilter merges by category name: the builder's filters
    become the given ones over the old ones, so a name that is given
    gets the given values (they replace the old values, they are not
    added to them) and every other name keeps its values.  An empty
    argument changes nothing, two calls are one call with the later
    filters over the earlier, and the order of the loop does not
    matter. *)
Theorem CategoryFilter_merges (filters : gmap string (list string))
    (q : queryState) :
  categoryFilters (CategoryFilter filters q) = filters ∪ categoryFilters q ∧
  (∀ name values, filters !! name = Some values →
     categoryFilters (CategoryFilter filters q) !! name = Some values) ∧
  (∀ name, filters !! name = None →
     categoryFilters (CategoryFilter filters q) !! name
     = categoryFilters q !! name) ∧
  CategoryFilter ∅ q = q ∧
  (∀ later, CategoryFilter later (CategoryFilter filters q)
            = CategoryFilter (later ∪ filters) q) ∧
  (∀ visit, range_order filters visit →
     foldl (λ acc kv, <[kv.1 := kv.2]> acc) (categoryFilters q) visit
     = categoryFilters (CategoryFilter filters q)).
Proof.
  assert (Hcat : ∀ f q0, categoryFilters (CategoryFilter f q0)
                         = f ∪ categoryFilters q0).
  { intros f q0. unfold CategoryFilter. simpl. apply map_fold_insert_union. }
  split; [apply Hcat|]. split; [|split; [|split; [|split]]].
  - intros name values Hname. rewrite Hcat.
    by apply lookup_union_Some_l.
  - intros name Hname. rewrite Hcat. by apply lookup_union_r.
  - destruct q. unfold CategoryFilter. simpl. by rewrite map_fold_empty.
  - intros later. unfold CategoryFilter. simpl.
    rewrite !map_fold_insert_union. by rewrite (assoc_L (∪)).
  - intros visit Hvisit. rewrite Hcat. unfold range_order in Hvisit.
    rewrite (foldl_insert_list_to_map id id visit).
    + assert (prod_map id id <$> visit = visit) as ->.
      { rewrite <-(list_fmap_id visit) at 2. apply list_fmap_ext.
        by intros ? [??]. }
      f_equal. rewrite <-(list_to_map_to_list filters).
      apply list_to_map_proper; [|done].
      rewrite Hvisit. apply NoDup_fst_map_to_list.
    + rewrite list_fmap_id, Hvisit. apply NoDup_fst_map_to_list.
Qed.

(** ** The parameters a query serializes *)

Lemma lookup_when_insert (c : bool) (k v : string) (params : gmap string string) :
  when c <[k := v]> params !! k = if c then Some v else params !! k.
Proof. destruct c; simpl; [apply lookup_insert_eq|done]. Qed.

Ltac params_lookup_hit :=
  unfold ToQueryParams_params; cbv zeta;
  params_lookup_ne; rewrite lookup_when_insert;
  match goal with |- (if ?c then _ else _) = _ => destruct c end;
  [done|]; params_lookup_ne; by rewrite ?lookup_empty.

(** When the optional parameters are in the params map, and with what
    value: start and function only when above zero, snippet and fetch
    only for a list that is not empty (the fields joined by commas),
    the two fetch flags as [*] only when set, and category_filters only
    when there is a filter (the JSON of the filters). *)
Theorem optional_parameters
    (FormatFloat_g Sprintf_f : float64 → string)
    (json_Marshal : gmap string (list string) → string) (q : queryState) :
  let params := ToQueryParams_params FormatFloat_g Sprintf_f json_Marshal q in
  params !! "start"
  = (if bool_decide (0 < start q) then Some (Itoa (start q)) else None) ∧
  params !! "function"
  = (if bool_decide (0 < scoringFunction q)
     then Some (Itoa (scoringFunction q)) else None) ∧
  params !! "snippet"
  = (if bool_decide (0 < length (snippetFields q))%nat
     then Some (Join (snippetFields q) ",") else None) ∧
  params !! "fetch"
  = (if bool_decide (0 < length (fetchFields q))%nat
     then Some (Join (fetchFields q) ",") else None) ∧
  params !! "fetch_variables"
  = (if fetchVariables q then Some "*" else None) ∧
  params !! "fetch_categories"
  = (if fetchCategories q then Some "*" else None) ∧
  params !! "category_filters"
  = (if bool_decide (0 < size (categoryFilters q))%nat
     then Some (json_Marshal (categoryFilters q)) else None).
Proof.
  intros params. unfold params. repeat split; params_lookup_hit.
Qed.

Lemma lookup_when_Some (c : bool)
    (update : gmap string string → gmap string string)
    (params : gmap string string) (k v : string) :
  when c update params !! k = Some v →
  update params !! k = Some v ∨ params !! k = Some v.
Proof. destruct c; simpl; auto. Qed.

Lemma lookup_store_all_Some {K V : Type} (key : K → string) (val : V → string)
    (visit : list (K * V)) (k v : string) : ∀ params,
  store_all key val visit params !! k = Some v →
  (∃ kv, kv ∈ visit ∧ k = key kv.1) ∨ params !! k = Some v.
Proof.
  unfold store_all. induction visit as [|kv visit IH]; intros params Hk;
    simpl in Hk; [by right|].
  apply IH in Hk as [(kv' & Hin & ->)|Hk].
  - left. exists kv'. split; [by right|done].
  - apply lookup_insert_Some in Hk as [[<- _]|[_ Hk]]; [|by right].
    left. exists kv. split; [by left|done].
Qed.

Lemma formatRangeParam_keys (g : float64 → string) (ranges : list varRange)
    (s t : string) :
  formatRangeParam g ranges !! s = Some t →
  ∃ r, r ∈ ranges ∧ s = Itoa (vr_id r).
Proof.
  unfold formatRangeParam.
  induction ranges as [|r ranges IH] using rev_ind; [done|].
  rewrite foldl_app. cbn [foldl]. rewrite formatRangeParam_step_insert.
  intros [[<- _]|[_ Hs]]%lookup_insert_Some.
  - exists r. split; [|done]. apply elem_of_app. right. by left.
  - destruct (IH Hs) as (r' & Hin & ->). exists r'. split; [|done].
    apply elem_of_app. by left.
Qed.

Lemma lookup_insert_Some_key (k0 v0 : string) (params : gmap string string)
    (k v : string) :
  <[k0 := v0]> params !! k = Some v → k = k0 ∨ params !! k = Some v.
Proof. intros [[<- _]|[_ Hk]]%lookup_insert_Some; auto. Qed.

Lemma lookup_when_insert_Some (c : bool) (k0 v0 : string)
    (params : gmap string string) (k v : string) :
  when c <[k0 := v0]> params !! k = Some v → k = k0 ∨ params !! k = Some v.
Proof.
  intros [Hk|Hk]%lookup_when_Some; [|by right].
  by apply lookup_insert_Some_key in Hk.
Qed.

Lemma lookup_when_store_all_Some {K V : Type} (c : bool)
    (key : K → string) (val : V → string) (visit : list (K * V))
    (params : gmap string string) (k v : string) :
  when c (store_all key val visit) params !! k = Some v →
  (∃ kv, kv ∈ visit ∧ k = key kv.1) ∨ params !! k = Some v.
Proof.
  intros [Hk|Hk]%lookup_when_Some; [|by right].
  by apply lookup_store_all_Some in Hk.
Qed.

(** The params map holds no parameter beyond those of the protocol:
    a key of the map is one of the nine fixed names, or [var<N>] for a
    variable N that is set, or [filter_docvar<N>] ([filter_function<N>])
    for the index N of a range filter that was added. *)
Theorem params_names
    (FormatFloat_g Sprintf_f : float64 → string)
    (json_Marshal : gmap string (list string) → string)
    (q : queryState) (k v : string) :
  ToQueryParams_params FormatFloat_g Sprintf_f json_Marshal q !! k = Some v →
  k ∈ ["q"; "start"; "len"; "function"; "snippet"; "fetch";
       "fetch_variables"; "fetch_categories"; "category_filters"]
  ∨ (∃ n, k = "var" +:+ Itoa n
          ∧ is_Some (default ∅ (queryVariables q) !! n))
  ∨ (∃ r, r ∈ docvarFilters q ∧ k = "filter_docvar" +:+ Itoa (vr_id r))
  ∨ (∃ r, r ∈ functionFilters q ∧ k = "filter_function" +:+ Itoa (vr_id r)).
Proof.
  unfold ToQueryParams_params. cbv zeta. intros H.
  apply lookup_when_store_all_Some in H as [([s t] & Hin & ->)|H].
  { apply elem_of_map_to_list, formatRangeParam_keys in Hin as (r & Hr & ->).
    right. right. right. eauto. }
  apply lookup_when_store_all_Some in H as [([s t] & Hin & ->)|H].
  { apply elem_of_map_to_list, formatRangeParam_keys in Hin as (r & Hr & ->).
    right. right. left. eauto. }
  apply lookup_when_insert_Some in H as [->|H]; [left; set_solver|].
  apply lookup_when_insert_Some in H as [->|H]; [left; set_solver|].
  apply lookup_when_insert_Some in H as [->|H]; [left; set_solver|].
  apply lookup_when_store_all_Some in H as [([n x] & Hin & ->)|H].
  { apply elem_of_map_to_list in Hin. right. left. exists n. split; [done|].
    by eexists. }
  apply lookup_when_insert_Some in H as [->|H]; [left; set_solver|].
  apply lookup_when_insert_Some in H as [->|H]; [left; set_solver|].
  apply lookup_when_insert_Some in H as [->|H]; [left; set_solver|].
  apply lookup_insert_Some_key in H as [->|H]; [left; set_solver|].
  apply lookup_when_insert_Some in H as [->|H]; [left; set_solver|].
  apply lookup_insert_Some_key in H as [->|H]; [left; set_solver|].
  by rewrite lookup_empty in H.
Qed.


Lemma params_names_witness :
  (∀ g f m,
     ToQueryParams_params g f m (QueryForString "golang") !! "q"
     = Some "golang") ∧
  (∀ (g f : float64 → string) (m : gmap string (list string) → string),
     "q" ∈ ["q"; "start"; "len"; "function"; "snippet"; "fetch";
            "fetch_variables"; "fetch_categories"; "category_filters"]
     ∨ (∃ n, "q" = "var" +:+ Itoa n
             ∧ is_Some (default ∅ (queryVariables (QueryForString "golang"))
                          !! n))
     ∨ (∃ r, r ∈ docvarFilters (QueryForString "golang")
             ∧ "q" = "filter_docvar" +:+ Itoa (vr_id r))
     ∨ (∃ r, r ∈ functionFilters (QueryForString "golang")
             ∧ "q" = "filter_function" +:+ Itoa (vr_id r))).
Proof.
  split; [reflexivity|]. intros g f m.
  exact (params_names g f m (QueryForString "golang") "q" "golang" eq_refl).
Defined.

(** ** Searching *)

(** SearchWithQuery on a response, for a query string built on an
    order the runtime can pick: the call returns (it does not panic); a
    result set comes with no error, only on a status of 200 to 299, and
    is the decoded one with a suggestion that is never nil, so that
    GetDidYouMean on it returns, the empty string when the response had
    no suggestion; a 404 is [Index does not exist]; every other status
    is an error that carries the status code and the body. *)
Theorem SearchWithQuery_outcomes
    (Unmarshal_searchResults : string → error + searchResults)
    (FormatFloat_g Sprintf_f : float64 → string)
    (json_Marshal : gmap string (list string) → string)
    (client : IndexClient) (query : queryState)
    (visit : list (string * string)) (resp : Response) :
  range_order
    (ToQueryParams_params FormatFloat_g Sprintf_f json_Marshal query) visit →
  let run := SearchWithQuery Unmarshal_searchResults FormatFloat_g Sprintf_f
               json_Marshal client query visit (Replied resp) in
  (∃ r, run = Ret r) ∧
  (∀ sr e, run = Ret (Some sr, e) →
     e = None ∧ 200 ≤ StatusCode resp ≤ 299 ∧
     ∃ decoded, Unmarshal_searchResults (Body resp) = inr decoded ∧
       GetDidYouMean sr = Ret (default "" (DidYouMean decoded)) ∧
       GetMatches sr = Matches decoded ∧ GetQuery sr = Query decoded ∧
       GetResults sr = Results decoded ∧ GetFacets sr = Facets decoded) ∧
  (StatusCode resp = 404 →
   run = Ret (None, Some (errors_New "Index does not exist"))) ∧
  (¬ 200 ≤ StatusCode resp ≤ 299 → StatusCode resp ≠ 404 →
   run = Ret (None, Some (errors_New
           ("Unexpected " +:+ Itoa (StatusCode resp) +:+ " error: "
            +:+ Body resp)))).
Proof.
  intros Hvisit run. unfold run, SearchWithQuery.
  destruct (ToQueryParams_join _ _ _ _ _ Hvisit) as [-> _]. simpl.
  destruct (isOk (StatusCode resp)) eqn:Hok.
  - apply isOk_spec in Hok.
    destruct (Unmarshal_searchResults (Body resp)) as [err|decoded] eqn:Hu.
    + outcome_cases.
    + split; [by eexists|]. split; [|split; [lia|done]].
      intros sr e [= <- <-]. split; [done|]. split; [done|].
      exists decoded. split; [done|].
      by destruct decoded as [? ? ? []].
  - assert (¬ 200 ≤ StatusCode resp ≤ 299) as Hnot.
    { rewrite <-isOk_spec. by rewrite Hok. }
    destruct (decide _); outcome_cases.
Qed.

Lemma SearchWithQuery_outcomes_witness :
  let U := λ _ : string,
    inr (mkSearchResults 0 "golang" "0.004" None [] ∅)
    : error + searchResults in
  let client := mkIndexClient "http://api/v1/indexes/idx" None in
  let visit := [("q", "golang"); ("len", "10")] in
  let resp := mkResponse 200 "200 OK" "{}" None in
  (∀ g f m,
     range_order (ToQueryParams_params g f m (QueryForString "golang")) visit)
  ∧ (∀ g f m, ∃ r,
       SearchWithQuery U g f m client (QueryForString "golang") visit
         (Replied resp) = Ret r).
Proof.
  intros U client visit resp.
  assert (Hvisit : ∀ g f m,
    range_order (ToQueryParams_params g f m (QueryForString "golang")) visit).
  { intros g f m. apply QueryForString_orders. by left. }
  split; [exact Hvisit|]. intros g f m.
  exact (proj1 (SearchWithQuery_outcomes U g f m client
                  (QueryForString "golang") visit resp (Hvisit g f m))).
Defined.

(** ** Result objects and partial failure *)

Section CorrelateInvariants.
Context {E O : Type} (ok : O → bool) (msg : O → string).
Implicit Types (els : list E) (os : list O) (t : tally E).

Lemma correlate_length_results els : ∀ os n t,
  length (results (correlate ok msg els os n t)) = length (results t).
Proof.
  induction els as [|e els IH]; intros [|o os] n t; simpl; try done.
  rewrite IH. destruct (ok o); simpl; by rewrite length_insert.
Qed.

Lemma correlate_flag_failed els : ∀ os n t,
  errorFlag t = bool_decide (failed t ≠ []) →
  errorFlag (correlate ok msg els os n t)
  = bool_decide (failed (correlate ok msg els os n t) ≠ []).
Proof.
  induction els as [|e els IH]; intros [|o os] n t Ht; simpl; try done.
  apply IH. destruct (ok o); simpl; [done|].
  symmetry. apply bool_decide_eq_true. by destruct (failed t).
Qed.

(** Outside the positions of the inputs the result object of a full
    run has no result and no error message. *)
Lemma correlate_outside els os (i : Z) :
  length els = length os →
  i < 0 ∨ Z.of_nat (length els) ≤ i →
  let t := correlate ok msg els os 0
             (mkTally false (replicate (length els) false) ∅ []) in
  index (results t) i = Panic IndexOutOfRange ∧
  comma_ok (errors t) i = ("", false).
Proof.
  intros Hlen Hi t. split.
  - unfold index. destruct (decide (0 ≤ i)); [|done].
    rewrite (lookup_ge_None_2 (results t)); [done|].
    unfold t. rewrite correlate_length_results. simpl.
    rewrite length_replicate. lia.
  - unfold comma_ok, t. rewrite correlate_errors by done.
    rewrite decide_False by lia. simpl. by rewrite lookup_empty.
Qed.
End CorrelateInvariants.

Lemma index_outside {A : Type} (s : list A) (i : Z) :
  i < 0 ∨ Z.of_nat (length s) ≤ i → index s i = Panic IndexOutOfRange.
Proof.
  intros Hi. unfold index. destruct (decide (0 ≤ i)); [|done].
  rewrite (lookup_ge_None_2 s); [done|lia].
Qed.

Lemma newBatchResults_Ret (documents : list Document) (r : list addResult)
    (b : addResults) :
  newBatchResults documents r = Ret b →
  length documents = length r ∧
  b = let t := correlate Added add_Error documents r 0
                 (mkTally false (replicate (length documents) false) ∅ []) in
      mkAddResults (errorFlag t) (results t) (errors t) documents (failed t).
Proof.
  unfold newBatchResults. destruct (decide _) as [|Hlen]; [done|].
  assert (length documents = length r) as Hlen' by lia.
  rewrite (newBatchResults_loop_correlate documents r 0%nat)
    by (simpl; rewrite ?drop_0, ?length_replicate; lia).
  rewrite drop_0. simpl. by intros [= <-].
Qed.

Lemma newBulkResults_Ret (documentIds : list string) (r : list deleteResult)
    (b : deleteResults) :
  newBulkResults documentIds r = Ret b →
  length documentIds = length r ∧
  b = let t := correlate Deleted delete_Error documentIds r 0
                 (mkTally false (replicate (length documentIds) false) ∅ []) in
      mkDeleteResults (errorFlag t) (results t) (errors t) documentIds
        (failed t).
Proof.
  unfold newBulkResults. destruct (decide _) as [|Hlen]; [done|].
  assert (length documentIds = length r) as Hlen' by lia.
  rewrite (newBulkResults_loop_correlate documentIds r 0%nat)
    by (simpl; rewrite ?drop_0, ?length_replicate; lia).
  rewrite drop_0. simpl. by intros [= <-].
Qed.

(** On a result object the correlator returned: the two input lists
    had the same length; HasErrors is true exactly when the list of
    failed inputs is not empty; and at a position outside the inputs
    (negative, or the length and above) GetResult and GetDocument
    (GetDocid) panic, while GetErrorMessage returns the empty message
    with ok = false. *)
Theorem batch_results_edges
    (documents : list Document) (ra : list addResult) (ba : addResults)
    (documentIds : list string) (rd : list deleteResult)
    (bd : deleteResults) :
  newBatchResults documents ra = Ret ba →
  newBulkResults documentIds rd = Ret bd →
  (length documents = length ra ∧
   add_HasErrors ba = bool_decide (GetFailedDocuments ba ≠ []) ∧
   ∀ i, i < 0 ∨ Z.of_nat (length documents) ≤ i →
     add_GetResult ba i = Panic IndexOutOfRange ∧
     GetDocument ba i = Panic IndexOutOfRange ∧
     add_GetErrorMessage ba i = ("", false)) ∧
  (length documentIds = length rd ∧
   del_HasErrors bd = bool_decide (GetFailedDocids bd ≠ []) ∧
   ∀ i, i < 0 ∨ Z.of_nat (length documentIds) ≤ i →
     del_GetResult bd i = Panic IndexOutOfRange ∧
     GetDocid bd i = Panic IndexOutOfRange ∧
     del_GetErrorMessage bd i = ("", false)).
Proof.
  intros [Hla ->]%newBatchResults_Ret [Hld ->]%newBulkResults_Ret. split.
  - split; [done|]. split.
    + by apply (correlate_flag_failed Added add_Error).
    + intros i Hi.
      destruct (correlate_outside Added add_Error documents ra i Hla Hi)
        as [Hres Herr].
      split; [exact Hres|]. split; [by apply index_outside|exact Herr].
  - split; [done|]. split.
    + by apply (correlate_flag_failed Deleted delete_Error).
    + intros i Hi.
      destruct (correlate_outside Deleted delete_Error documentIds rd i Hld Hi)
        as [Hres Herr].
      split; [exact Hres|]. split; [by apply index_outside|exact Herr].
Qed.

Lemma batch_results_edges_witness :
  let doc := mkDocument "a" ∅ ∅ ∅ in
  ∃ ba bd,
    newBatchResults [doc] [mkAddResult false "too long"] = Ret ba ∧
    newBulkResults ["a"] [mkDeleteResult true ""] = Ret bd ∧
    add_GetResult ba 1 = Panic IndexOutOfRange ∧
    del_GetErrorMessage bd (-1) = ("", false).
Proof.
  intros doc.
  destruct (batch_results_answer_exists [doc]
              [mkAddResult false "too long"] eq_refl) as [ba Hba].
  destruct (bulk_results_answer_exists ["a"]
              [mkDeleteResult true ""] eq_refl) as [bd Hbd].
  exists ba, bd. split; [exact Hba|]. split; [exact Hbd|].
  destruct (batch_results_edges _ _ _ _ _ _ Hba Hbd)
    as [(_ & _ & Hadd) (_ & _ & Hdel)].
  split.
  - apply (Hadd 1). right. simpl. lia.
  - apply (Hdel (-1)). left. lia.
Defined.

(** A batch call answered by a success status (200 to 299 for
    AddDocuments, 200 for DeleteDocuments) with as many outcome records
    as items returns the result object and no error, however many items
    failed: the failures are in the object, whose failed list is the
    inputs with an unsuccessful outcome. *)
Theorem batch_partial_failure
    (Unmarshal_addResults : string → error + list addResult)
    (Unmarshal_deleteResults : string → error + list deleteResult)
    (client : IndexClient)
    (documents : list Document) (resp_add : Response) (ra : list addResult)
    (documentIds : list string) (resp_del : Response)
    (rd : list deleteResult) :
  200 ≤ StatusCode resp_add ≤ 299 →
  Unmarshal_addResults (Body resp_add) = inr ra →
  length documents = length ra →
  StatusCode resp_del = 200 →
  Unmarshal_deleteResults (Body resp_del) = inr rd →
  length documentIds = length rd →
  (∃ b, AddDocuments Unmarshal_addResults client documents (Replied resp_add)
        = Ret (Some b, None) ∧
        add_HasErrors b = bool_decide (GetFailedDocuments b ≠ []) ∧
        GetFailedDocuments b
        = (filter (λ p, Added p.2 = false) (zip documents ra)).*1) ∧
  (∃ b, DeleteDocuments Unmarshal_deleteResults client documentIds
          (Replied resp_del)
        = Ret (Some b, None) ∧
        del_HasErrors b = bool_decide (GetFailedDocids b ≠ []) ∧
        GetFailedDocids b
        = (filter (λ p, Deleted p.2 = false) (zip documentIds rd)).*1).
Proof.
  intros Hok%isOk_spec Hra Hla H200 Hrd Hld. split.
  - unfold AddDocuments. rewrite Hok, Hra.
    destruct (decide _) as [|_]; [done|].
    destruct (batch_results_answer_exists documents ra Hla) as [b Hb].
    rewrite Hb. simpl. exists b. split; [done|].
    apply newBatchResults_Ret in Hb as [_ ->]. split.
    + by apply (correlate_flag_failed Added add_Error).
    + simpl. by rewrite correlate_failed.
  - unfold DeleteDocuments. rewrite decide_True by done. rewrite Hrd.
    destruct (bulk_results_answer_exists documentIds rd Hld) as [b Hb].
    rewrite Hb. simpl. exists b. split; [done|].
    apply newBulkResults_Ret in Hb as [_ ->]. split.
    + by apply (correlate_flag_failed Deleted delete_Error).
    + simpl. by rewrite correlate_failed.
Qed.

Lemma batch_partial_failure_witness :
  let doc := mkDocument "a" ∅ ∅ ∅ in
  let client := mkIndexClient "http://api/v1/indexes/idx" None in
  let resp := mkResponse 200 "200 OK" "outcomes" None in
  (∃ b, AddDocuments (λ _, inr [mkAddResult false "too long"]) client [doc]
          (Replied resp) = Ret (Some b, None)
        ∧ GetFailedDocuments b = [doc]) ∧
  (∃ b, DeleteDocuments (λ _, inr [mkDeleteResult false "missing"]) client
          ["a"] (Replied resp) = Ret (Some b, None)
        ∧ GetFailedDocids b = ["a"]).
Proof.
  intros doc client resp.
  destruct (batch_partial_failure
              (λ _, inr [mkAddResult false "too long"])
              (λ _, inr [mkDeleteResult false "missing"]) client
              [doc] resp [mkAddResult false "too long"]
              ["a"] resp [mkDeleteResult false "missing"])
    as [(ba & Ha & _ & Hfa) (bd & Hd & _ & Hfd)];
    [simpl; lia|reflexivity|reflexivity|reflexivity|reflexivity|reflexivity|].
  split; [exists ba|exists bd]; split; assumption.
Defined.

(** Which batch call can panic.  AddDocuments never does, whatever the
    transport answers: its own check of the two lengths comes before the
    correlator's.  DeleteDocuments has no such check and panics exactly
    when a 200 response decodes to a list of outcome records whose
    length is not the number of ids. *)
Theorem batch_calls_panic_exactly
    (Unmarshal_addResults : string → error + list addResult)
    (Unmarshal_deleteResults : string → error + list deleteResult)
    (client : IndexClient) (documents : list Document)
    (documentIds : list string) (reply : sent) :
  (∃ r, AddDocuments Unmarshal_addResults client documents reply = Ret r) ∧
  ((∃ p, DeleteDocuments Unmarshal_deleteResults client documentIds reply
         = Panic p) ↔
   ∃ resp rd, reply = Replied resp ∧ StatusCode resp = 200 ∧
     Unmarshal_deleteResults (Body resp) = inr rd ∧
     length rd ≠ length documentIds).
Proof.
  split.
  - unfold AddDocuments. destruct reply as [resp|err]; [|by eexists].
    destruct (isOk _); [|destruct (decide _); by eexists].
    destruct (Unmarshal_addResults (Body resp)) as [err|ra]; [by eexists|].
    destruct (decide _) as [|Hlen]; [by eexists|].
    destruct (batch_results_answer_exists documents ra) as [b ->]; [lia|].
    by eexists.
  - unfold DeleteDocuments. destruct reply as [resp|err].
    2:{ split; [by intros [p ?]|]. by intros (? & ? & [=] & _). }
    destruct (decide (StatusCode resp = 200)) as [H200|H200].
    + destruct (Unmarshal_deleteResults (Body resp)) as [err|rd] eqn:Hrd.
      { split; [by intros [p ?]|]. intros (? & ? & ? & _ & ? & _).
        simplify_eq. congruence. }
      destruct (decide (length documentIds = length rd)) as [Hlen|Hlen].
      * destruct (bulk_results_answer_exists documentIds rd Hlen) as [b ->].
        split; [by intros [p ?]|]. intros (? & ? & ? & _ & ? & ?).
        simplify_eq. congruence.
      * unfold newBulkResults. rewrite decide_True by done. simpl.
        split; [|by eexists]. intros _. exists resp, rd.
        split_and!; done.
    + split.
      * destruct (decide _); by intros [p ?].
      * intros (? & ? & ? & ? & _). simplify_eq.
Qed.

(** ** The account client *)

Lemma HasSuffix_slash_append (u : string) : HasSuffix_slash (u +:+ "/") = true.
Proof.
  induction u as [|c u IH]; [done|].
  rewrite append_cons. simpl. rewrite IH.
  by destruct (u +:+ "/") eqn:Heq; [apply append_eq_nil in Heq as [_ ?]|].
Qed.

Lemma drop_last_slash (u : string) : drop_last (u +:+ "/") = u.
Proof. rewrite drop_last_append by done. apply append_nil_r. Qed.

(** NewApiClient returns the error of [url.Parse] for a URL that does
    not parse, refuses a URL whose scheme is neither http nor https, and
    takes exactly one trailing slash off a URL it accepts: a URL that
    does not end in a slash is kept as it is, a URL with one slash added
    gives the client of that URL, and of two slashes added one stays.
    GetIndex on a client makes a handle with no metadata whose URL is
    the client's URL, [/v1/indexes/] and the name. *)
Theorem NewApiClient_outcomes (url_Parse : string → error + string)
    (u scheme : string) (err : error) :
  (url_Parse u = inl err → NewApiClient url_Parse u = (None, Some err)) ∧
  (url_Parse u = inr scheme → scheme ≠ "http" → scheme ≠ "https" →
   NewApiClient url_Parse u
   = (None, Some (errors_New "URL scheme must be http or https"))) ∧
  (url_Parse u = inr scheme → scheme = "http" ∨ scheme = "https" →
   HasSuffix_slash u = false →
   NewApiClient url_Parse u = (Some (mkIndexTankClient u), None)) ∧
  (url_Parse (u +:+ "/") = inr scheme → scheme = "http" ∨ scheme = "https" →
   NewApiClient url_Parse (u +:+ "/") = (Some (mkIndexTankClient u), None)) ∧
  (url_Parse (u +:+ "//") = inr scheme → scheme = "http" ∨ scheme = "https" →
   NewApiClient url_Parse (u +:+ "//")
   = (Some (mkIndexTankClient (u +:+ "/")), None)) ∧
  (∀ name, url (GetIndex (mkIndexTankClient u) name)
           = u +:+ "/v1/indexes/" +:+ name
           ∧ metadata (GetIndex (mkIndexTankClient u) name) = None).
Proof.
  unfold NewApiClient. split_and!.
  - by intros ->.
  - intros -> Hh Hs. by rewrite decide_True.
  - intros -> Hs Hslash. rewrite Hslash.
    rewrite decide_False; [done|]. intros [??]. by destruct Hs.
  - intros -> Hs. rewrite HasSuffix_slash_append, drop_last_slash.
    rewrite decide_False; [done|]. intros [??]. by destruct Hs.
  - assert (u +:+ "//" = (u +:+ "/") +:+ "/") as ->
      by (by rewrite append_assoc).
    intros -> Hs. rewrite HasSuffix_slash_append, drop_last_slash.
    rewrite decide_False; [done|]. intros [??]. by destruct Hs.
  - done.
Qed.

(** The account client's create calls return a handle beside the
    error: whenever they return, the handle has the URL GetIndex gives
    for the name; when they return an error the handle is the one
    GetIndex gives, with no metadata; and the handle has metadata only
    after a 201 and with no error. *)
Theorem ApiClient_create_returns_handle
    (Unmarshal_any : string → jsonValue * option error)
    (account : indexTankClient) (name : string)
    (options : option (gmap string jsonValue))
    (reply meta_reply : sent) (c : IndexClient) (e : option error) :
  ApiClient_CreateIndexWithOptions Unmarshal_any account name options
    reply meta_reply = Ret (c, e) →
  ApiClient_CreateIndex Unmarshal_any account name reply meta_reply
  = Ret (c, e) ∧
  url c = url (GetIndex account name) ∧
  (is_Some e → c = GetIndex account name) ∧
  (is_Some (metadata c) →
   ∃ resp, reply = Replied resp ∧ StatusCode resp = 201 ∧ e = None).
Proof.
  unfold ApiClient_CreateIndex, ApiClient_CreateIndexWithOptions, CreateIndex,
    CreateIndexWithOptions, GetIndex.
  destruct reply as [resp|err]; simpl.
  2:{ intros ?; simplify_eq. split_and!; try done.
      intros Hs; by apply is_Some_None in Hs. }
  repeat destruct (decide _);
    try (intros ?; simplify_eq; split_and!; try done;
         intros Hs; by apply is_Some_None in Hs).
  unfold GetMetadata. simpl.
  destruct (refreshMetadata _ _ _) as [[md err]|]; simpl; [|done].
  intros ?; simplify_eq.
  split_and!; try done; try (intros Hs; by apply is_Some_None in Hs); eauto.
Qed.

Lemma ApiClient_create_returns_handle_witness :
  let U := λ _ : string, (JNull, None) : jsonValue * option error in
  let account := mkIndexTankClient "http://api" in
  let reply := Replied (mkResponse 409 "409 Conflict" "" None) in
  ApiClient_CreateIndex U account "idx" reply reply
  = Ret (mkIndexClient "http://api/v1/indexes/idx" None,
         Some (errors_New "Maximum indexes limit reached for this account")).
Proof.
  intros U account reply.
  exact (proj1 (ApiClient_create_returns_handle U account "idx" None
                  reply reply _ _ eq_refl)).
Defined.

(** ** Query strings lose nothing *)

Lemma occurs_append c s1 s2 :
  occurs c (s1 +:+ s2) = occurs c s1 || occurs c s2.
Proof.
  induction s1 as [|a s1 IH]; [done|].
  rewrite append_cons. simpl. by rewrite IH, orb_assoc.
Qed.

Lemma split_at_clean c s : occurs c s = false → split_at c s = (s, None).
Proof.
  induction s as [|a s IH]; [done|]. simpl.
  intros [Ha Hs]%orb_false_elim. by rewrite Ha, IH.
Qed.

Lemma split_at_append c s1 s2 :
  occurs c s1 = false → split_at c (s1 +:+ String c s2) = (s1, Some s2).
Proof.
  induction s1 as [|a s1 IH].
  - intros _. simpl. by rewrite Ascii.eqb_refl.
  - rewrite append_cons. simpl. intros [Ha Hs]%orb_false_elim.
    by rewrite Ha, IH.
Qed.

Lemma upperhex_not_separator (n : N) :
  upperhex n ≠ "&"%char ∧ upperhex n ≠ "="%char.
Proof. unfold upperhex. repeat case_match; done. Qed.

Lemma occurs_QueryEscape (c : ascii) (s : string) :
  c = "&"%char ∨ c = "="%char → occurs c (QueryEscape s) = false.
Proof.
  intros Hc. induction s as [|a s IH]; [done|]. simpl.
  destruct (Ascii.eqb a " ") eqn:Hsp.
  { simpl. rewrite IH. by destruct Hc as [-> | ->]. }
  destruct (shouldEscape a) eqn:Hesc.
  - simpl. rewrite IH.
    destruct (upperhex_not_separator (N_of_ascii a / 16)) as [H1 H2].
    destruct (upperhex_not_separator (N_of_ascii a `mod` 16)) as [H3 H4].
    destruct Hc as [-> | ->]; simpl;
      rewrite ?(proj2 (Ascii.eqb_neq _ _)) by done; done.
  - simpl. rewrite IH.
    assert (a ≠ c) as Hne.
    { intros <-. by destruct Hc as [-> | ->]. }
    by rewrite (proj2 (Ascii.eqb_neq _ _) Hne).
Qed.

Lemma unhex_upperhex (n : N) : (n < 16)%N → unhex (upperhex n) = n.
Proof.
  intros Hn.
  assert (n = 0 ∨ n = 1 ∨ n = 2 ∨ n = 3 ∨ n = 4 ∨ n = 5 ∨ n = 6 ∨ n = 7
          ∨ n = 8 ∨ n = 9 ∨ n = 10 ∨ n = 11 ∨ n = 12 ∨ n = 13 ∨ n = 14
          ∨ n = 15)%N as Hcases by lia.
  repeat destruct Hcases as [->|Hcases]; try reflexivity. by subst.
Qed.

Lemma N_of_ascii_lt (a : ascii) : (N_of_ascii a < 256)%N.
Proof. apply N_ascii_bounded. Qed.

Lemma escaped_byte_inj (a b : ascii) :
  upperhex (N_of_ascii a / 16) = upperhex (N_of_ascii b / 16) →
  upperhex (N_of_ascii a `mod` 16) = upperhex (N_of_ascii b `mod` 16) →
  a = b.
Proof.
  intros Hhi Hlo.
  pose proof (N_of_ascii_lt a) as Ha. pose proof (N_of_ascii_lt b) as Hb.
  apply (f_equal unhex) in Hhi, Hlo.
  rewrite !unhex_upperhex in Hhi, Hlo
    by (try apply N.mod_lt; try apply N.Div0.div_lt_upper_bound; lia).
  rewrite <-(ascii_N_embedding a), <-(ascii_N_embedding b). f_equal.
  rewrite (N.div_mod (N_of_ascii a) 16), (N.div_mod (N_of_ascii b) 16) by done.
  lia.
Qed.

Lemma shouldEscape_upperhex (n : N) : shouldEscape (upperhex n) = false.
Proof. unfold upperhex. repeat case_match; done. Qed.

Global Instance QueryEscape_inj : Inj (=) (=) QueryEscape.
Proof.
  intros s1. induction s1 as [|a s1 IH]; intros [|b s2]; simpl.
  - done.
  - by repeat case_match.
  - by repeat case_match.
  - destruct (Ascii.eqb a " ") eqn:Ha; destruct (Ascii.eqb b " ") eqn:Hb;
      [apply Ascii.eqb_eq in Ha as ->; apply Ascii.eqb_eq in Hb as ->;
       intros [= H]; f_equal; by apply IH| | |].
    + destruct (shouldEscape b) eqn:Hesc; intros [= H]; [done..|].
      by subst.
    + destruct (shouldEscape a) eqn:Hesc; intros [= H]; [done..|].
      by subst.
    + destruct (shouldEscape a) eqn:Hea; destruct (shouldEscape b) eqn:Heb.
      * intros [= Hhi Hlo H]. f_equal; [by apply escaped_byte_inj|by apply IH].
      * intros [= <- ?]. done.
      * intros [= -> ?]. done.
      * intros [= -> H]. f_equal. by apply IH.
Qed.

Lemma Join_cons_cons (x y : string) (l : list string) (sep : string) :
  Join (x :: y :: l) sep = x +:+ sep +:+ Join (y :: l) sep.
Proof. reflexivity. Qed.

Lemma Join_inj (c : ascii) (l1 : list string) : ∀ l2,
  Forall (λ x, occurs c x = false) l1 →
  Forall (λ x, occurs c x = false) l2 →
  l1 ≠ [] → l2 ≠ [] →
  Join l1 (String c "") = Join l2 (String c "") → l1 = l2.
Proof.
  induction l1 as [|x l1 IH]; intros [|y l2] H1 H2 Hn1 Hn2 Heq; try done.
  apply Forall_cons in H1 as [Hx H1]. apply Forall_cons in H2 as [Hy H2].
  apply (f_equal (split_at c)) in Heq.
  destruct l1 as [|x' l1], l2 as [|y' l2].
  - change (Join [x] _) with x in Heq. change (Join [y] _) with y in Heq.
    rewrite !split_at_clean in Heq by done. by simplify_eq.
  - change (Join [x] _) with x in Heq. rewrite Join_cons_cons in Heq.
    rewrite append_cons, (split_at_clean c x), split_at_append in Heq by done.
    discriminate Heq.
  - change (Join [y] _) with y in Heq. rewrite Join_cons_cons in Heq.
    rewrite append_cons, (split_at_clean c y), split_at_append in Heq by done.
    discriminate Heq.
  - rewrite !Join_cons_cons, !append_cons, !split_at_append in Heq by done.
    injection Heq as -> Heq. f_equal. by apply IH.
Qed.

Lemma render_clean (kv : string * string) :
  plain_key kv.1 → occurs "&" (render kv) = false.
Proof.
  intros [Hamp _]. unfold render.
  rewrite !occurs_append, Hamp, occurs_QueryEscape by auto. done.
Qed.

Lemma render_inj (kv1 kv2 : string * string) :
  plain_key kv1.1 → plain_key kv2.1 → render kv1 = render kv2 → kv1 = kv2.
Proof.
  destruct kv1 as [k1 v1], kv2 as [k2 v2]. unfold render. simpl.
  intros [_ H1] [_ H2] Heq. apply (f_equal (split_at "=")) in Heq.
  change ("=" +:+ ?s) with (String "=" s) in Heq.
  rewrite !split_at_append in Heq by done.
  injection Heq as -> Hv. f_equal. by apply (inj QueryEscape).
Qed.

Lemma render_fmap_inj (visit1 : list (string * string)) : ∀ visit2,
  Forall (λ kv, plain_key kv.1) visit1 →
  Forall (λ kv, plain_key kv.1) visit2 →
  render <$> visit1 = render <$> visit2 → visit1 = visit2.
Proof.
  induction visit1 as [|kv1 visit1 IH]; intros [|kv2 visit2] H1 H2 Heq;
    try done.
  apply Forall_cons in H1 as [Hk1 H1]. apply Forall_cons in H2 as [Hk2 H2].
  rewrite !fmap_cons in Heq. injection Heq as Hkv Heq.
  f_equal; [by apply render_inj|by apply IH].
Qed.

Lemma toQueryString_Ret params visit s :
  toQueryString (Some params) visit = Ret s →
  visit ≠ [] ∧ s = Join (render <$> visit) "&".
Proof.
  destruct visit as [|kv visit]; [done|].
  rewrite toQueryString_Some. by intros [= <-].
Qed.

Lemma Join_render_inj (visit1 visit2 : list (string * string)) :
  Forall (λ kv, plain_key kv.1) visit1 →
  Forall (λ kv, plain_key kv.1) visit2 →
  visit1 ≠ [] → visit2 ≠ [] →
  Join (render <$> visit1) "&" = Join (render <$> visit2) "&" →
  visit1 = visit2.
Proof.
  intros H1 H2 Hn1 Hn2 Heq.
  apply render_fmap_inj; [done..|].
  apply (Join_inj "&"); [| | | |done].
  - apply Forall_fmap. eapply Forall_impl; [exact H1|].
    intros kv. apply render_clean.
  - apply Forall_fmap. eapply Forall_impl; [exact H2|].
    intros kv. apply render_clean.
  - by destruct visit1.
  - by destruct visit2.
Qed.

(** toQueryString loses nothing of the parameters it is given: when the
    keys hold no [&] and no [=], two runs of the loop return the same
    string only if they visited the same keys with the same values in
    the same order, whatever bytes the values hold. *)
Theorem toQueryString_injective
    (params1 params2 : gmap string string)
    (visit1 visit2 : list (string * string)) (s : string) :
  Forall (λ kv, plain_key kv.1) visit1 →
  Forall (λ kv, plain_key kv.1) visit2 →
  toQueryString (Some params1) visit1 = Ret s →
  toQueryString (Some params2) visit2 = Ret s →
  visit1 = visit2.
Proof.
  intros H1 H2 [Hn1 ->]%toQueryString_Ret [Hn2 Heq]%toQueryString_Ret.
  by apply Join_render_inj.
Qed.

Lemma toQueryString_injective_witness :
  let visit := [("q", "a&b=c d"); ("len", "10")] in
  Forall (λ kv : string * string, plain_key kv.1) visit ∧
  toQueryString (Some (list_to_map visit)) visit
  = Ret "q=a%26b%3Dc+d&len=10" ∧
  visit = visit.
Proof.
  intros visit.
  assert (Hplain : Forall (λ kv : string * string, plain_key kv.1) visit)
    by (repeat constructor).
  split; [exact Hplain|]. split; [reflexivity|].
  exact (toQueryString_injective (list_to_map visit) (list_to_map visit)
           visit visit "q=a%26b%3Dc+d&len=10" Hplain Hplain eq_refl eq_refl).
Defined.

Lemma occurs_pretty_N_go (c : ascii) (x : N) : ∀ s,
  (∀ d, pretty_N_char d ≠ c) →
  occurs c (pretty_N_go x s) = occurs c s.
Proof.
  induction (N.lt_wf_0 x) as [x _ IH]; intros s Hc.
  assert (x = 0 ∨ 0 < x)%N as [->|?] by lia.
  - by rewrite pretty_N_go_0.
  - rewrite pretty_N_go_step by done. rewrite IH by (by try apply N.div_lt).
    simpl. by rewrite (proj2 (Ascii.eqb_neq _ _) (Hc _)).
Qed.

Lemma pretty_N_char_not_separator (c : ascii) (d : N) :
  c = "&"%char ∨ c = "="%char → pretty_N_char d ≠ c.
Proof.
  intros Hc. unfold pretty_N_char.
  destruct Hc as [-> | ->]; by repeat case_match.
Qed.

Lemma occurs_Itoa (c : ascii) (n : Z) :
  c = "&"%char ∨ c = "="%char → occurs c (Itoa n) = false.
Proof.
  intros Hc.
  assert (Hpos : ∀ p : positive, occurs c (pretty p) = false).
  { intros p. unfold pretty, pretty_positive, pretty, pretty_N.
    rewrite decide_False by done.
    rewrite occurs_pretty_N_go by (intros d; by apply pretty_N_char_not_separator).
    done. }
  unfold Itoa, pretty, pretty_Z. destruct n as [|p|p].
  - by destruct Hc as [-> | ->].
  - apply Hpos.
  - rewrite occurs_append, Hpos. by destruct Hc as [-> | ->].
Qed.

Lemma plain_key_Itoa (prefix : string) (n : Z) :
  plain_key prefix → plain_key (prefix +:+ Itoa n).
Proof.
  intros [Hamp Heq]. split; rewrite occurs_append, occurs_Itoa by auto.
  - by rewrite Hamp.
  - by rewrite Heq.
Qed.

Lemma params_keys_plain (g f : float64 → string)
    (m : gmap string (list string) → string) (q : queryState) (k v : string) :
  ToQueryParams_params g f m q !! k = Some v → plain_key k.
Proof.
  unfold ToQueryParams_params. cbv zeta. intros H.
  apply lookup_when_store_all_Some in H as [([s t] & Hin & ->)|H].
  { apply elem_of_map_to_list, formatRangeParam_keys in Hin as (r & Hr & ->).
    by apply plain_key_Itoa. }
  apply lookup_when_store_all_Some in H as [([s t] & Hin & ->)|H].
  { apply elem_of_map_to_list, formatRangeParam_keys in Hin as (r & Hr & ->).
    by apply plain_key_Itoa. }
  apply lookup_when_insert_Some in H as [->|H]; [done|].
  apply lookup_when_insert_Some in H as [->|H]; [done|].
  apply lookup_when_insert_Some in H as [->|H]; [done|].
  apply lookup_when_store_all_Some in H as [([n x] & Hin & ->)|H].
  { by apply plain_key_Itoa. }
  apply lookup_when_insert_Some in H as [->|H]; [done|].
  apply lookup_when_insert_Some in H as [->|H]; [done|].
  apply lookup_when_insert_Some in H as [->|H]; [done|].
  apply lookup_insert_Some_key in H as [->|H]; [done|].
  apply lookup_when_insert_Some in H as [->|H]; [done|].
  apply lookup_insert_Some_key in H as [->|H]; [done|].
  by rewrite lookup_empty in H.
Qed.

Lemma params_visit_plain (g f : float64 → string)
    (m : gmap string (list string) → string) (q : queryState)
    (visit : list (string * string)) :
  range_order (ToQueryParams_params g f m q) visit →
  Forall (λ kv, plain_key kv.1) visit.
Proof.
  intros Hvisit. apply Forall_forall. intros [k v] Hin.
  unfold range_order in Hvisit. rewrite Hvisit in Hin.
  apply elem_of_map_to_list in Hin. by eapply params_keys_plain.
Qed.

(** The query string ToQueryParams returns determines the params map:
    two builder states, on whatever orders the runtime picks, give the
    same string only if their params maps are equal and were visited in
    the same order.  No query text, field name, formatted number or JSON
    text can make two different sets of parameters read alike, since
    every key ToQueryParams stores is free of [&] and [=] and every
    value is escaped. *)
Theorem ToQueryParams_injective
    (g f : float64 → string) (m : gmap string (list string) → string)
    (q1 q2 : queryState) (visit1 visit2 : list (string * string)) :
  range_order (ToQueryParams_params g f m q1) visit1 →
  range_order (ToQueryParams_params g f m q2) visit2 →
  ToQueryParams g f m q1 visit1 = ToQueryParams g f m q2 visit2 →
  visit1 = visit2 ∧
  ToQueryParams_params g f m q1 = ToQueryParams_params g f m q2.
Proof.
  intros Hv1 Hv2.
  destruct (ToQueryParams_join _ _ _ _ _ Hv1) as (-> & Hq1 & _).
  destruct (ToQueryParams_join _ _ _ _ _ Hv2) as (-> & Hq2 & _).
  intros [= Heq].
  assert (visit1 = visit2) as <-.
  { apply Join_render_inj; [by eapply params_visit_plain..| | |done].
    - intros ->. by apply elem_of_nil in Hq1.
    - intros ->. by apply elem_of_nil in Hq2. }
  split; [done|]. apply map_to_list_inj.
  unfold range_order in Hv1, Hv2. by rewrite <-Hv1, <-Hv2.
Qed.

Lemma ToQueryParams_injective_witness :
  let q1 := QueryForString "a&b=c" in
  let q2 := Start (-1) (QueryForString "a&b=c") in
  let visit := [("q", "a&b=c"); ("len", "10")] in
  (∀ g f m, range_order (ToQueryParams_params g f m q1) visit) ∧
  (∀ g f m, range_order (ToQueryParams_params g f m q2) visit) ∧
  (∀ g f m, ToQueryParams g f m q1 visit = ToQueryParams g f m q2 visit) ∧
  (∀ g f m, ToQueryParams_params g f m q1 = ToQueryParams_params g f m q2).
Proof.
  intros q1 q2 visit.
  assert (H1 : ∀ g f m, range_order (ToQueryParams_params g f m q1) visit).
  { intros g f m. apply QueryForString_orders. by left. }
  assert (H2 : ∀ g f m, range_order (ToQueryParams_params g f m q2) visit).
  { intros g f m. apply (H1 g f m). }
  split; [exact H1|]. split; [exact H2|]. split; [reflexivity|].
  intros g f m.
  exact (proj2 (ToQueryParams_injective g f m q1 q2 visit visit
                  (H1 g f m) (H2 g f m) eq_refl)).
Defined.
